(** * The 2D Ising simulation: Metropolis sweeps, domain analysis, step scheduler

    A shallow embedding of [services/isingCore.ts] (createGrid, performMCS,
    analyzeDomains), of [App.tsx] (the simulation loop, the actions
    handleReset and handleStep, the controls and the start-up) and of the
    drawing effect of [components/GridCanvas.tsx], with the properties of
    the engine stated and proved over it.

    JavaScript numbers are kept behind a small interface ([Number]) holding
    exactly the operations the source applies to them.  Three instances are
    given: IEEE-754 binary64 (what the program runs on), exact rationals, and
    the real numbers (where [Math.exp] is the exponential function). *)

From Stdlib Require Import ZArith QArith Qround Qabs Floats Reals Lra Lqa Lia.
From stdpp Require Import base option list numbers sets sorting relations.

Open Scope Z_scope.

(** ** JavaScript numbers *)

Class Number (num : Type) : Type := {
  n_add : num -> num -> num;      (* a + b *)
  n_sub : num -> num -> num;      (* a - b *)
  n_mul : num -> num -> num;      (* a * b *)
  n_div : num -> num -> num;      (* a / b *)
  n_neg : num -> num;             (* -a *)
  n_ofZ : Z -> num;               (* an integer literal or integer-valued variable *)
  n_floor : num -> Z;             (* Math.floor, on finite numbers *)
  n_lt : num -> num -> bool       (* a < b *)
}.

(** The source of [Math.random()]: the draws in the order they are made. *)
Definition Rng (num : Type) : Type := nat -> num.

(** *** binary64 *)

Definition float_floor (x : float) : Z :=
  match Prim2SF x with
  | S754_finite s m e =>
      let v := if s then Z.neg m else Z.pos m in
      if 0 <=? e then v * 2 ^ e else v / 2 ^ (- e)
  | _ => 0
  end.

Definition float_ofZ (z : Z) : float :=
  if z <? 0 then PrimFloat.opp (PrimFloat.of_uint63 (Uint63.of_Z (- z)))
  else PrimFloat.of_uint63 (Uint63.of_Z z).

#[export] Instance float_Number : Number float := {|
  n_add := PrimFloat.add;
  n_sub := PrimFloat.sub;
  n_mul := PrimFloat.mul;
  n_div := PrimFloat.div;
  n_neg := PrimFloat.opp;
  n_ofZ := float_ofZ;
  n_floor := float_floor;
  n_lt := PrimFloat.ltb
|}.

(** The rational number a finite binary64 value stands for. *)
Definition float_toQ (x : float) : Q :=
  match Prim2SF x with
  | S754_finite s m e =>
      let v := if s then Z.neg m else Z.pos m in
      if 0 <=? e then inject_Z (v * 2 ^ e)
      else Qmake v (Z.to_pos (2 ^ (- e)))
  | _ => 0%Q
  end.

(** *** exact rationals *)

Definition Q_ltb (a b : Q) : bool := if Qlt_le_dec a b then true else false.

#[export] Instance Q_Number : Number Q := {|
  n_add := Qplus;
  n_sub := Qminus;
  n_mul := Qmult;
  n_div := Qdiv;
  n_neg := Qopp;
  n_ofZ := inject_Z;
  n_floor := Qfloor;
  n_lt := Q_ltb
|}.

(** *** real numbers *)

Definition R_ltb (a b : R) : bool := if Rlt_dec a b then true else false.

#[export] Instance R_Number : Number R := {|
  n_add := Rplus;
  n_sub := Rminus;
  n_mul := Rmult;
  n_div := Rdiv;
  n_neg := Ropp;
  n_ofZ := IZR;
  n_floor := Int_part;
  n_lt := R_ltb
|}.

(** ** Typed arrays *)

(** [arr[i]]: [None] stands for [undefined] (index out of range). *)
Definition get {A} (arr : list A) (i : Z) : option A :=
  if i <? 0 then None else arr !! Z.to_nat i.

(** Conversion of a number to the element type of an [Int8Array]. *)
Definition int8 (z : Z) : Z := (z + 128) mod 256 - 128.

(** [arr[i] = v]: a write outside the array is ignored. *)
Definition put {A} (arr : list A) (i : Z) (v : A) : list A :=
  if i <? 0 then arr else <[Z.to_nat i := v]> arr.

(** ** services/isingCore.ts *)

Module IsingCore.

Section Metropolis.
Context {num : Type} `{Number num}.
(** [Math.exp] and the stream behind [Math.random]. *)
Variable Math_exp : num -> num.
Variable rnd : Rng num.

Definition half : num := n_div (n_ofZ 1) (n_ofZ 2).

(** The loop of [createGrid]: [i] is the loop variable, [k] the number of
    iterations left, [c] the number of draws made so far. *)
Fixpoint createGrid_loop (k : nat) (i : Z) (c : nat) (grid : list Z) : list Z * nat :=
  match k with
  | O => (grid, c)
  | S k' =>
      let v := if n_lt half (rnd c) then 1 else -1 in
      createGrid_loop k' (i + 1) (S c) (put grid i (int8 v))
  end.

Definition createGrid (n : Z) (c : nat) : list Z * nat :=
  let grid := replicate (Z.to_nat (n * n)) 0 in
  createGrid_loop (length grid) 0 c grid.

(** [expTable]: the two entries written by the [forEach]. *)
Definition expTable (temperature : num) : list (Z * num) :=
  map (fun dE => (dE, Math_exp (n_div (n_neg (n_ofZ dE)) temperature))) [4; 8].

(** [expTable[dE]] *)
Fixpoint table_get (t : list (Z * num)) (dE : Z) : option num :=
  match t with
  | [] => None
  | (k, v) :: t' => if k =? dE then Some v else table_get t' dE
  end.

(** The indices of the four toroidal neighbours of site [idx]. *)
Definition leftIdx (N idx : Z) : Z :=
  let x := Z.rem idx N in let y := idx / N in y * N + Z.rem (x - 1 + N) N.
Definition rightIdx (N idx : Z) : Z :=
  let x := Z.rem idx N in let y := idx / N in y * N + Z.rem (x + 1) N.
Definition topIdx (N idx : Z) : Z :=
  let x := Z.rem idx N in let y := idx / N in Z.rem (y - 1 + N) N * N + x.
Definition bottomIdx (N idx : Z) : Z :=
  let x := Z.rem idx N in let y := idx / N in Z.rem (y + 1) N * N + x.

(** Their sum; [None] is NaN (some operand was [undefined]). *)
Definition neighborSum (grid : list Z) (N idx : Z) : option Z :=
  left ← get grid (leftIdx N idx);
  right ← get grid (rightIdx N idx);
  top ← get grid (topIdx N idx);
  bottom ← get grid (bottomIdx N idx);
  Some (left + right + top + bottom).

Definition deltaE (grid : list Z) (N idx : Z) : option Z :=
  s ← get grid idx;
  ns ← neighborSum grid N idx;
  Some (2 * s * ns).

(** [dE <= 0], false when [dE] is NaN. *)
Definition le_zero (dE : option Z) : bool :=
  match dE with Some d => d <=? 0 | None => false end.

(** [u < expTable[dE]], false when the entry is [undefined]. *)
Definition lt_entry (u : num) (table : list (Z * num)) (dE : option Z) : bool :=
  match dE ≫= table_get table with Some p => n_lt u p | None => false end.

(** [grid[idx] = -s]; a NaN is stored as 0. *)
Definition store_neg (grid : list Z) (idx : Z) (s : option Z) : list Z :=
  put grid idx (match s with Some v => int8 (- v) | None => 0 end).

(** One iteration of the [for] loop of [performMCS], on the grid and the
    number of draws made so far. *)
Definition attempt (N : Z) (table : list (Z * num)) (st : list Z * nat) : list Z * nat :=
  let '(grid, c) := st in
  let area := N * N in
  let idx := n_floor (n_mul (rnd c) (n_ofZ area)) in
  let s := get grid idx in
  let dE := deltaE grid N idx in
  if le_zero dE then (store_neg grid idx s, S c)
  else if lt_entry (rnd (S c)) table dE then (store_neg grid idx s, S (S c))
       else (grid, S (S c)).

Definition performMCS (grid : list Z) (size : Z) (temperature : num) (c : nat)
  : list Z * nat :=
  let N := size in
  let area := N * N in
  let table := expTable temperature in
  Nat.iter (Z.to_nat area) (attempt N table) (grid, c).

End Metropolis.

(** *** analyzeDomains *)

(** The arrays the analysis works on: the caller's grid, and the locals
    [visited], [queue] and [clusterSizes]. *)
Record Heap : Type := mkHeap {
  h_grid : list Z;
  h_visited : list Z;
  h_queue : list Z;
  h_sizes : list Z
}.

(** [if (v)] on an array element: 0 and [undefined] are falsy. *)
Definition truthy (v : option Z) : bool :=
  match v with Some z => negb (z =? 0) | None => false end.

(** [a === b] on array elements. *)
Definition strict_eq (a b : option Z) : bool := bool_decide (a = b).

Definition getIdx (N x y : Z) : Z := y * N + x.

(** [queue.pop()]: the last element and the rest, [None] on an empty array. *)
Fixpoint pop (q : list Z) : option (list Z * Z) :=
  match q with
  | [] => None
  | x :: q' =>
      match pop q' with
      | None => Some ([], x)
      | Some (r, y) => Some (x :: r, y)
      end
  end.

(** The body of [for (const {nx, ny} of neighbors)]. *)
Definition visit (N : Z) (spinType : option Z) (h : Heap) (n : Z * Z) : Heap :=
  let nIdx := getIdx N n.1 n.2 in
  if negb (truthy (get (h_visited h) nIdx)) && strict_eq (get (h_grid h) nIdx) spinType
  then mkHeap (h_grid h) (put (h_visited h) nIdx 1) (h_queue h ++ [nIdx]) (h_sizes h)
  else h.

Definition neighbors (N curr : Z) : list (Z * Z) :=
  let cx := Z.rem curr N in
  let cy := curr / N in
  [ (Z.rem (cx + 1) N, cy);
    (Z.rem (cx - 1 + N) N, cy);
    (cx, Z.rem (cy + 1) N);
    (cx, Z.rem (cy - 1 + N) N) ].

(** [while (queue.length > 0)]: every iteration takes one unit of [fuel];
    the result carries [currentSize] and the fuel left, [None] means the
    fuel ran out before the queue was empty. *)
Fixpoint flood (fuel : nat) (N : Z) (spinType : option Z) (h : Heap) (currentSize : Z)
  : option (Heap * Z * nat) :=
  match pop (h_queue h) with
  | None => Some (h, currentSize, fuel)
  | Some (rest, curr) =>
      match fuel with
      | O => None
      | S fuel' =>
          let h1 := mkHeap (h_grid h) (h_visited h) rest (h_sizes h) in
          let h2 := foldl (visit N spinType) h1 (neighbors N curr) in
          flood fuel' N spinType h2 (currentSize + 1)
      end
  end.

(** The body of the two nested [for] loops, at cell (x, y). *)
Definition cell (N : Z) (y x : Z) (st : Heap * nat) : option (Heap * nat) :=
  let '(h, fuel) := st in
  let startIdx := getIdx N x y in
  if truthy (get (h_visited h) startIdx) then Some (h, fuel)
  else
    let spinType := get (h_grid h) startIdx in
    let h1 := mkHeap (h_grid h) (put (h_visited h) startIdx 1) [startIdx] (h_sizes h) in
    '(h2, currentSize, fuel') ← flood fuel N spinType h1 0;
    Some (mkHeap (h_grid h2) (h_visited h2) (h_queue h2) (h_sizes h2 ++ [currentSize]), fuel').

(** [for (let i = 0; i < N; i++) body(i)] over a state that may fail. *)
Fixpoint for_each {S} (l : list Z) (body : Z -> S -> option S) (st : S) : option S :=
  match l with
  | [] => Some st
  | i :: l' => st' ← body i st; for_each l' body st'
  end.

Definition scan (N : Z) (st : Heap * nat) : option (Heap * nat) :=
  for_each (seqZ 0 N) (fun y => for_each (seqZ 0 N) (fun x => cell N y x)) st.

(** [distribution[s] = (distribution[s] || 0) + 1] on an object with
    integer keys, held in the order [Object.entries] lists them
    (ascending keys). *)
Fixpoint tally (s : Z) (distribution : list (Z * Z)) : list (Z * Z) :=
  match distribution with
  | [] => [(s, 1)]
  | (k, n) :: d' =>
      if s =? k then (k, (if n =? 0 then 0 else n) + 1) :: d'
      else if s <? k then (s, 1) :: (k, n) :: d'
      else (k, n) :: tally s d'
  end.

(** [.sort((a, b) => a.size - b.size)], a stable sort. *)
Fixpoint sort_insert (e : Z * Z) (l : list (Z * Z)) : list (Z * Z) :=
  match l with
  | [] => [e]
  | e' :: l' => if e'.1 - e.1 <=? 0 then e' :: sort_insert e l' else e :: l
  end.

Definition sort_by_size (l : list (Z * Z)) : list (Z * Z) :=
  foldl (fun acc e => sort_insert e acc) [] l.

(** [analyzeDomains] with a bound [fuel] on the total number of
    [queue.pop()] calls.  Returns the (size, count) pairs, the grid as the
    call leaves it, and the fuel left. *)
Definition analyzeDomains_fuel (fuel : nat) (grid : list Z) (size : Z)
  : option (list (Z * Z) * list Z * nat) :=
  let N := size in
  let h0 := mkHeap grid (replicate (Z.to_nat (N * N)) 0) [] [] in
  '(h, fuel') ← scan N (h0, fuel);
  let distribution := foldl (fun d s => tally s d) [] (h_sizes h) in
  Some (sort_by_size distribution, h_grid h, fuel').

Definition analyzeDomains (grid : list Z) (size : Z) : option (list (Z * Z) * list Z) :=
  '(r, g, _) ← analyzeDomains_fuel (Z.to_nat (size * size)) grid size;
  Some (r, g).

End IsingCore.

(** ** App.tsx: the simulation loop and the actions *)

Module App.

(** The calls into [isingCore], recorded in the order they are made. *)
Inductive Call : Type := CallCreateGrid | CallPerformMCS | CallAnalyzeDomains.

#[export] Instance Call_eq_dec : EqDecision Call.
Proof. solve_decision. Defined.

Section App.
Context {num : Type} `{Number num}.
Variable Math_exp : num -> num.
Variable rnd : Rng num.

(** The component's state and refs.  [size] stands for the state variable
    and [sizeRef], [isRunning] for the state variable and [runningRef]
    (the effects keep each pair in step). *)
Record State : Type := mkState {
  size : Z;
  isRunning : bool;
  gridRef : list Z;
  gridData : list Z;
  stats : list (Z * Z);
  tempRef : num;
  speedRef : num;
  accumulatorRef : num;
  frameCountRef : Z;
  drawn : nat;          (* calls of Math.random() so far *)
  calls : list Call     (* calls into isingCore so far *)
}.

(** [performMCS(gridRef.current, sizeRef.current, tempRef.current)] *)
Definition call_performMCS (st : State) : State :=
  let '(g, c) := IsingCore.performMCS Math_exp rnd (gridRef st) (size st) (tempRef st) (drawn st) in
  mkState (size st) (isRunning st) g (gridData st) (stats st) (tempRef st) (speedRef st)
          (accumulatorRef st) (frameCountRef st) c (calls st ++ [CallPerformMCS]).

(** [setGridData(new Int8Array(gridRef.current))] *)
Definition setGridData_copy (st : State) : State :=
  mkState (size st) (isRunning st) (gridRef st) (gridRef st) (stats st) (tempRef st)
          (speedRef st) (accumulatorRef st) (frameCountRef st) (drawn st) (calls st).

(** [setStats(analyzeDomains(gridRef.current, sizeRef.current))] *)
Definition call_analyzeDomains (st : State) : option State :=
  '(domainDist, g) ← IsingCore.analyzeDomains (gridRef st) (size st);
  Some (mkState (size st) (isRunning st) g (gridData st) domainDist (tempRef st)
                (speedRef st) (accumulatorRef st) (frameCountRef st) (drawn st)
                (calls st ++ [CallAnalyzeDomains])).

Definition set_accumulator (st : State) (a : num) : State :=
  mkState (size st) (isRunning st) (gridRef st) (gridData st) (stats st) (tempRef st)
          (speedRef st) a (frameCountRef st) (drawn st) (calls st).

Definition set_frameCount (st : State) (n : Z) : State :=
  mkState (size st) (isRunning st) (gridRef st) (gridData st) (stats st) (tempRef st)
          (speedRef st) (accumulatorRef st) n (drawn st) (calls st).

(** One run of [loop], that is one animation frame. *)
Definition loop (st : State) : option State :=
  if isRunning st then
    let st1 := set_accumulator st (n_add (accumulatorRef st) (speedRef st)) in
    let updatesToPerform := n_floor (accumulatorRef st1) in
    if 0 <? updatesToPerform then
      let st2 := set_accumulator st1 (n_sub (accumulatorRef st1) (n_ofZ updatesToPerform)) in
      let st3 := Nat.iter (Z.to_nat updatesToPerform) call_performMCS st2 in
      let st4 := setGridData_copy st3 in
      let st5 := set_frameCount st4 (frameCountRef st4 + 1) in
      let shouldUpdateStats :=
        n_lt (speedRef st5) (n_ofZ 1) || (Z.rem (frameCountRef st5) 10 =? 0) in
      if shouldUpdateStats then call_analyzeDomains st5 else Some st5
    else Some st1
  else Some st.

Definition handleReset (st : State) : State :=
  let '(newGrid, c) := IsingCore.createGrid rnd (size st) (drawn st) in
  mkState (size st) false newGrid newGrid [] (tempRef st) (speedRef st)
          (n_ofZ 0) 0 c (calls st ++ [CallCreateGrid]).

Definition handleStep (st : State) : option State :=
  call_analyzeDomains (setGridData_copy (call_performMCS st)).

(** [n] frames in a row. *)
Fixpoint ticks (n : nat) (st : State) : option State :=
  match n with
  | O => Some st
  | S n' => st' ← loop st; ticks n' st'
  end.

(** How many times a call was made. *)
Definition count_calls (c : Call) (st : State) : nat :=
  length (filter (fun c' => c' = c) (calls st)).

End App.

End App.

(** ** Vocabulary of the specification *)

(** A spin is +1 or -1. *)
Definition spin (s : Z) : Prop := s = 1 ∨ s = -1.

#[export] Instance spin_dec (s : Z) : Decision (spin s).
Proof. unfold spin. apply _. Defined.

(** A lattice of side [N]: N² cells, each a spin. *)
Definition lattice (N : Z) (grid : list Z) : Prop :=
  length grid = Z.to_nat (N * N) ∧ Forall spin grid.

#[export] Instance lattice_dec N grid : Decision (lattice N grid).
Proof. unfold lattice. apply _. Defined.

Section Reachable.
Context {num : Type} `{Number num}.
Variable Math_exp : num -> num.
Variable rnd : Rng num.

(** The lattice states the program can be in: what [createGrid] returns,
    and what any number of [performMCS] calls (at any temperature, at any
    point of the random stream) make of it. *)
Inductive reachable (N : Z) : list Z -> Prop :=
| reach_create (c : nat) :
    reachable N (IsingCore.createGrid rnd N c).1
| reach_sweep (grid : list Z) (T : num) (c : nat) :
    reachable N grid ->
    reachable N (IsingCore.performMCS Math_exp rnd grid N T c).1.
End Reachable.

(** The possible values of the energy delta. *)
Definition dE_domain (d : Z) : Prop := d ∈ [-8; -4; 0; 4; 8].

(** Sum over the (size, count) pairs of size × count. *)
Definition cells_counted (dist : list (Z * Z)) : Z :=
  foldr (fun e acc => e.1 * e.2 + acc) 0 dist.

(** Sum of the recorded cluster sizes. *)
Definition sumZ (l : list Z) : Z := foldr Z.add 0 l.

(** Number of cells not yet marked in [visited]. *)
Fixpoint zeros (v : list Z) : nat :=
  match v with
  | [] => 0%nat
  | z :: v' => if z =? 0 then S (zeros v') else zeros v'
  end.

(** A site index of a lattice of side [N]. *)
Definition site (N i : Z) : Prop := 0 ≤ i < N * N.

(** What the analysis keeps true of its arrays: [visited] has N² entries
    and the queue holds site indices. *)
Definition heap_ok (N : Z) (h : IsingCore.Heap) : Prop :=
  length (IsingCore.h_visited h) = Z.to_nat (N * N) ∧
  Forall (site N) (IsingCore.h_queue h).

(** What a step of the analysis leaves alone: the grid, the recorded
    sizes, and every mark already set. *)
Definition heap_ext (h h' : IsingCore.Heap) : Prop :=
  IsingCore.h_grid h' = IsingCore.h_grid h ∧
  IsingCore.h_sizes h' = IsingCore.h_sizes h ∧
  forall i, IsingCore.truthy (get (IsingCore.h_visited h) i) = true ->
            IsingCore.truthy (get (IsingCore.h_visited h') i) = true.

(** Cells still to be popped or still unmarked. *)
Definition pending (h : IsingCore.Heap) : nat :=
  (length (IsingCore.h_queue h) + zeros (IsingCore.h_visited h))%nat.

(** What holds between two cells of the scan started with [F] units of
    fuel on [grid0]: the queue is empty, the grid is the caller's, every
    cell is either counted in a recorded size or still unmarked, every pop
    so far has marked-and-counted one cell, and the cells in [D] are marked. *)
Definition scan_inv (N : Z) (F : nat) (grid0 : list Z) (D : Z -> Prop)
    (st : IsingCore.Heap * nat) : Prop :=
  heap_ok N st.1 ∧
  IsingCore.h_queue st.1 = [] ∧
  IsingCore.h_grid st.1 = grid0 ∧
  sumZ (IsingCore.h_sizes st.1) + Z.of_nat (zeros (IsingCore.h_visited st.1)) = N * N ∧
  (st.2 + Z.to_nat (N * N) = F + zeros (IsingCore.h_visited st.1))%nat ∧
  forall i, D i -> IsingCore.truthy (get (IsingCore.h_visited st.1) i) = true.

(** "Exactly one sweep plus exactly one analysis" between two states. *)
Definition one_sweep_one_analysis {num} (before after : App.State (num:=num)) : Prop :=
  App.count_calls App.CallPerformMCS after = S (App.count_calls App.CallPerformMCS before) ∧
  App.count_calls App.CallAnalyzeDomains after = S (App.count_calls App.CallAnalyzeDomains before).

(** A state of the exact-arithmetic instance, for concrete runs:
    N = 2, all cells up, T = 1, running at speed 1/4, nothing done yet. *)
Definition example_state : App.State (num:=Q) :=
  App.mkState 2 true [1; 1; 1; 1] [1; 1; 1; 1] [] 1%Q (1 # 4)%Q 0%Q 0 0 [].

(** A state on binary64 as the application has it after start-up and a
    click on Start: N = 32, T = 2.269, accumulator 0, and the speed set to
    0.1 (the double nearest to it), the third of [SPEED_LEVELS]. *)
Definition example_state_float : App.State (num:=float) :=
  App.mkState 32 true (replicate 1024 1) (replicate 1024 1) []
              0x1.226e978d4fdf4p+1%float 0x1.999999999999ap-4%float 0%float 0 0 [].

(** The same at speed 0.25. *)
Definition example_state_quarter : App.State (num:=float) :=
  App.mkState 32 true (replicate 1024 1) (replicate 1024 1) []
              0x1.226e978d4fdf4p+1%float 0.25%float 0%float 0 0 [].

(** Stand-ins for [Math.exp] and [Math.random] in concrete runs of the
    scheduler (its sweep counts do not depend on them): no uphill move is
    accepted, every draw is 0.5. *)
Definition stub_exp : float -> float := fun _ => 0%float.
Definition stub_rnd : Rng float := fun _ => 0.5%float.

(** Two states agree on the fields that only the scheduler and the
    actions write. *)
Definition same_controls {num} (st st' : App.State (num:=num)) : Prop :=
  App.size st' = App.size st ∧ App.isRunning st' = App.isRunning st ∧
  App.tempRef st' = App.tempRef st ∧ App.speedRef st' = App.speedRef st ∧
  App.accumulatorRef st' = App.accumulatorRef st ∧
  App.frameCountRef st' = App.frameCountRef st.

(** How often a size occurs among the recorded cluster sizes. *)
Definition occurrences (s : Z) (sizes : list Z) : nat :=
  length (filter (fun x => x = s) sizes).

(** The pairs are listed by strictly increasing size. *)
Definition ascending (dist : list (Z * Z)) : Prop := StronglySorted Z.lt dist.*1.

(** The histogram step of [analyzeDomains] on its own: the [forEach] into
    [distribution], then [Object.entries], [map] and [sort]. *)
Definition histogram (sizes : list Z) : list (Z * Z) :=
  IsingCore.sort_by_size (foldl (fun d s => IsingCore.tally s d) [] sizes).

(** What [distribution[k]] holds, 0 standing for a missing key. *)
Fixpoint entry (d : list (Z * Z)) (k : Z) : Z :=
  match d with
  | [] => 0
  | (k', n) :: d' => if k' =? k then n else entry d' k
  end.

(** ** Domains as connected sets of equal spins *)

(** Cell [i] carries a mark in [visited]. *)
Definition marked (v : list Z) (i : Z) : Prop := IsingCore.truthy (get v i) = true.

(** [j] is one of the four toroidal neighbours of [i]. *)
Definition nbr (N i j : Z) : Prop :=
  j ∈ (fun n : Z * Z => IsingCore.getIdx N n.1 n.2) <$> IsingCore.neighbors N i.

(** [j] is a neighbour of site [i] holding the same spin. *)
Definition link (grid : list Z) (N i j : Z) : Prop :=
  site N i ∧ nbr N i j ∧ get grid j = get grid i.

(** [i] and [j] lie in one domain: a chain of equal-spin neighbours joins them. *)
Definition connected (grid : list Z) (N : Z) : relation Z := rtc (link grid N).

(** The marked cells form whole domains. *)
Definition closed (grid : list Z) (N : Z) (v : list Z) : Prop :=
  forall i j, marked v i -> link grid N i j -> marked v j.

(** What the [while] loop keeps true while it floods the domain of [start],
    [v0] being [visited] as the flood found it. *)
Definition flood_inv (grid : list Z) (N : Z) (v0 : list Z) (start : Z)
    (h : IsingCore.Heap) : Prop :=
  heap_ok N h ∧ IsingCore.h_grid h = grid ∧
  (forall i, marked v0 i -> marked (IsingCore.h_visited h) i) ∧
  (forall i, marked (IsingCore.h_visited h) i -> marked v0 i ∨ connected grid N start i) ∧
  Forall (fun q => site N q ∧ connected grid N start q) (IsingCore.h_queue h) ∧
  (forall i j, marked (IsingCore.h_visited h) i -> ¬ marked v0 i ->
               i ∉ IsingCore.h_queue h ->
               link grid N i j -> marked (IsingCore.h_visited h) j).

(** The same while the neighbours of the popped cell [curr] are being
    looked at, [seen] being those handled so far. *)
Definition visiting_inv (grid : list Z) (N : Z) (v0 : list Z) (start curr : Z)
    (seen : list Z) (h : IsingCore.Heap) : Prop :=
  heap_ok N h ∧ IsingCore.h_grid h = grid ∧
  (forall i, marked v0 i -> marked (IsingCore.h_visited h) i) ∧
  (forall i, marked (IsingCore.h_visited h) i -> marked v0 i ∨ connected grid N start i) ∧
  Forall (fun q => site N q ∧ connected grid N start q) (IsingCore.h_queue h) ∧
  (forall i j, marked (IsingCore.h_visited h) i -> ¬ marked v0 i ->
               i ∉ IsingCore.h_queue h -> i ≠ curr ->
               link grid N i j -> marked (IsingCore.h_visited h) j) ∧
  (forall j, j ∈ seen -> get grid j = get grid curr -> marked (IsingCore.h_visited h) j).

#[export] Instance marked_dec v i : Decision (marked v i).
Proof. unfold marked. apply _. Defined.

(** The cells that carry a mark in [v'] and none in [v], in index order. *)
Definition fresh (N : Z) (v v' : list Z) : list Z :=
  filter (fun i => marked v' i ∧ ¬ marked v i) (seqZ 0 (N * N)).

(** [c] lists, without repetition, the cells of one domain. *)
Definition is_domain (grid : list Z) (N : Z) (c : list Z) : Prop :=
  NoDup c ∧ exists r, site N r ∧ forall i, i ∈ c <-> connected grid N r i.

(** What the scan keeps true of the domains found so far, [comps] listing
    their cells in the order they were found. *)
Definition domains_inv (grid : list Z) (N : Z) (comps : list (list Z))
    (h : IsingCore.Heap) : Prop :=
  closed grid N (IsingCore.h_visited h) ∧
  IsingCore.h_sizes h = (fun c => Z.of_nat (length c)) <$> comps ∧
  Forall (is_domain grid N) comps ∧
  NoDup (concat comps) ∧
  (forall i, marked (IsingCore.h_visited h) i <-> i ∈ concat comps).

(** ** App.tsx: constants, state changes from the controls, start-up

    As in [App], a state variable and the ref that an effect keeps equal to
    it are one field, and an action stands for the state update together
    with the effects it triggers. *)

Module Controls.
Import App.

Section Controls.
Context {num : Type} `{Number num}.
Variable Math_exp : num -> num.
Variable rnd : Rng num.
Implicit Types st : State (num:=num).

Definition SIZES : list Z := [32; 64; 100; 128; 200].
Definition DEFAULT_SIZE : Z := 128.

(** 2.269 *)
Definition CRITICAL_TEMPERATURE : num := n_div (n_ofZ 2269) (n_ofZ 1000).

(** [0.01, 0.05, 0.1, 0.25, 0.5, 1, 2, 5, 10, 20] *)
Definition SPEED_LEVELS : list num :=
  [ n_div (n_ofZ 1) (n_ofZ 100); n_div (n_ofZ 5) (n_ofZ 100); n_div (n_ofZ 1) (n_ofZ 10);
    n_div (n_ofZ 25) (n_ofZ 100); n_div (n_ofZ 5) (n_ofZ 10);
    n_ofZ 1; n_ofZ 2; n_ofZ 5; n_ofZ 10; n_ofZ 20 ].
Definition DEFAULT_SPEED_INDEX : nat := 5.

(** The effect that depends on [size]: a fresh grid, statistics cleared,
    the run stopped, the accumulator zeroed (the frame counter is kept). *)
Definition sizeEffect st : State (num:=num) :=
  let '(newGrid, c) := IsingCore.createGrid rnd (size st) (drawn st) in
  mkState (size st) false newGrid newGrid [] (tempRef st) (speedRef st)
          (n_ofZ 0) (frameCountRef st) c (calls st ++ [CallCreateGrid]).

(** [setSize(s)]: nothing happens when the value is the one held. *)
Definition setSize (s : Z) st : State (num:=num) :=
  if s =? size st then st
  else sizeEffect (mkState s (isRunning st) (gridRef st) (gridData st) (stats st)
                           (tempRef st) (speedRef st) (accumulatorRef st)
                           (frameCountRef st) (drawn st) (calls st)).

(** The size slider: [setSize(SIZES[i])], for a position [i] of the slider. *)
Definition onSizeSlider (i : nat) st : option (State (num:=num)) :=
  s ← SIZES !! i; Some (setSize s st).

(** [setTemperature(t)] and the effect that copies it to [tempRef]. *)
Definition setTemperature (t : num) st : State (num:=num) :=
  mkState (size st) (isRunning st) (gridRef st) (gridData st) (stats st) t (speedRef st)
          (accumulatorRef st) (frameCountRef st) (drawn st) (calls st).

(** [setSpeedIndex(i)] and the effect that sets [speedRef] to [SPEED_LEVELS[i]]. *)
Definition setSpeedIndex (i : nat) st : option (State (num:=num)) :=
  f ← SPEED_LEVELS !! i;
  Some (mkState (size st) (isRunning st) (gridRef st) (gridData st) (stats st) (tempRef st) f
                (accumulatorRef st) (frameCountRef st) (drawn st) (calls st)).

(** The Start/Stop button: [setIsRunning(!isRunning)]. *)
Definition toggleRunning st : State (num:=num) :=
  mkState (size st) (negb (isRunning st)) (gridRef st) (gridData st) (stats st) (tempRef st)
          (speedRef st) (accumulatorRef st) (frameCountRef st) (drawn st) (calls st).

(** The Step button, which is disabled while the simulation runs. *)
Definition onStepButton st : option (State (num:=num)) :=
  if isRunning st then Some st else handleStep Math_exp rnd st.

(** The state after the first render: the initial values of the state
    variables and refs, with [c] the draws made before.  The speed is
    [SPEED_LEVELS[DEFAULT_SPEED_INDEX]], which is 1. *)
Definition initial (c : nat) : State (num:=num) :=
  let '(grid, c') := IsingCore.createGrid rnd DEFAULT_SIZE c in
  mkState DEFAULT_SIZE false grid grid [] CRITICAL_TEMPERATURE (n_ofZ 1)
          (n_ofZ 0) 0 c' [CallCreateGrid].

(** The state once the effects of the first render have run. *)
Definition mounted (c : nat) : State (num:=num) := sizeEffect (initial c).

(** The states the application can be in. *)
Inductive app_reachable : State (num:=num) -> Prop :=
| app_mounted c : app_reachable (mounted c)
| app_frame st st' : app_reachable st -> loop Math_exp rnd st = Some st' -> app_reachable st'
| app_step st st' : app_reachable st -> onStepButton st = Some st' -> app_reachable st'
| app_reset st : app_reachable st -> app_reachable (handleReset rnd st)
| app_size i st st' : app_reachable st -> onSizeSlider i st = Some st' -> app_reachable st'
| app_temperature t st : app_reachable st -> app_reachable (setTemperature t st)
| app_speed i st st' : app_reachable st -> setSpeedIndex i st = Some st' -> app_reachable st'
| app_toggle st : app_reachable st -> app_reachable (toggleRunning st).

(** What every state of the application satisfies. *)
Definition app_inv st : Prop :=
  size st ∈ SIZES ∧
  lattice (size st) (gridRef st) ∧
  gridData st = gridRef st ∧
  (stats st = [] ∨ cells_counted (stats st) = size st * size st) ∧
  speedRef st ∈ SPEED_LEVELS ∧
  0 ≤ frameCountRef st.

(** The frames of a run in which the speed slider is moved before each
    frame: [setSpeedIndex(i)], then one run of [loop], for each [i]. *)
Fixpoint frames_at (positions : list nat) st : option (State (num:=num)) :=
  match positions with
  | [] => Some st
  | i :: rest => st1 ← setSpeedIndex i st; st2 ← loop Math_exp rnd st1; frames_at rest st2
  end.

End Controls.
End Controls.

(** The speed factors chosen at the slider positions, added up exactly. *)
Definition speed_sum (positions : list nat) : Q :=
  foldr (fun i acc => (default 0 (Controls.SPEED_LEVELS (num:=Q) !! i) + acc)%Q) 0%Q positions.

(** A running state at speed 1/4 whose accumulator has reached 3/4: the
    next frame executes a sweep. *)
Definition due_state : App.State (num:=Q) :=
  App.mkState 2 true [1; 1; 1; 1] [1; 1; 1; 1] [] 1%Q (1 # 4)%Q (3 # 4)%Q 0 0 [].

(** A running state at speed 2. *)
Definition fast_state : App.State (num:=Q) :=
  App.mkState 2 true [1; 1; 1; 1] [1; 1; 1; 1] [] 1%Q 2%Q 0%Q 0 0 [].

(** ** components/GridCanvas.tsx

    The drawing effect, for a canvas and a 2D context that exist.  Setting
    [canvas.width] clears the canvas; the context is opaque and every
    rectangle has integer coordinates, so a fill covers whole pixels. *)

Module GridCanvas.

(** The three values [fillStyle] takes: '#0f172a', '#ef4444', '#3b82f6'. *)
Inductive Colour : Type := Background | Red | Blue.

(** A call [ctx.fillRect(x, y, w, h)], with the [fillStyle] in force. *)
Record Fill : Type := mkFill { f_style : Colour; f_x : Z; f_y : Z; f_w : Z; f_h : Z }.

Section Render.
Context {num : Type} `{Number num}.

(** [Math.ceil(x)], which is [-Math.floor(-x)]. *)
Definition ceil (x : num) : Z := - n_floor (n_neg x).

Definition displaySize : Z := 600.

(** The body of the [for] loop: the call made for cell [i], which holds [val]. *)
Definition drawCell (size i val : Z) : Fill :=
  let cellSize := n_div (n_ofZ displaySize) (n_ofZ size) in
  let x := n_mul (n_ofZ (Z.rem i size)) cellSize in
  let y := n_mul (n_ofZ (i / size)) cellSize in
  mkFill (if val =? 1 then Red else Blue)
         (n_floor x) (n_floor y) (ceil cellSize) (ceil cellSize).

(** The effect: the [fillRect] calls in the order they are made, the
    background first. *)
Definition render (grid : list Z) (size : Z) : list Fill :=
  mkFill Background 0 0 displaySize displaySize
  :: imap (fun i val => drawCell size (Z.of_nat i) val) grid.

End Render.

(** Pixel (px, py) lies in the rectangle of a call. *)
Definition inside (f : Fill) (px py : Z) : bool :=
  (f_x f <=? px) && (px <? f_x f + f_w f) && (f_y f <=? py) && (py <? f_y f + f_h f).

(** The colour of a pixel after the calls: the fills are opaque, so it is
    the style of the last call whose rectangle holds the pixel. *)
Definition pixel (calls : list Fill) (px py : Z) : option Colour :=
  foldl (fun col f => if inside f px py then Some (f_style f) else col) None calls.

(** The column (or row) of cells that pixel coordinate [p] ends up showing:
    ceil((p + 1) · size / 600) - 1. *)
Definition shown (size p : Z) : Z := ((p + 1) * size + (displaySize - 1)) / displaySize - 1.

(** A check to evaluate: on binary64 the left edge of every column and
    the width of a cell, for side [size], are those of exact arithmetic. *)
Definition same_edges (size : Z) : bool :=
  forallb (fun c => (n_floor (n_mul (n_ofZ c) (n_div (n_ofZ displaySize) (n_ofZ size)) : float)
                     =? (c * displaySize) / size))
          (seqZ 0 size)
  && (ceil (n_div (n_ofZ displaySize) (n_ofZ size) : float) =? - ((- displaySize) / size)).

End GridCanvas.

(** ** Arrays *)

Section ArrayFacts.
Context {A : Type}.
Implicit Types (arr : list A) (i : Z) (v : A).

Lemma get_Some_range arr i v : get arr i = Some v -> 0 ≤ i < Z.of_nat (length arr).
Proof.
  unfold get. destruct (Z.ltb_spec i 0); [done|].
  intros Hl. apply lookup_lt_Some in Hl. lia.
Qed.

Lemma get_in_range arr i : 0 ≤ i < Z.of_nat (length arr) -> is_Some (get arr i).
Proof.
  intros Hi. unfold get. destruct (Z.ltb_spec i 0); [lia|].
  apply lookup_lt_is_Some. lia.
Qed.

Lemma length_put arr i v : length (put arr i v) = length arr.
Proof. unfold put. destruct (i <? 0); [done|]. apply length_insert. Qed.

Lemma get_put_eq arr i v : is_Some (get arr i) -> get (put arr i v) i = Some v.
Proof.
  intros [w Hw]. pose proof (get_Some_range _ _ _ Hw) as Hr.
  unfold get, put. destruct (Z.ltb_spec i 0); [lia|].
  apply list_lookup_insert_eq. lia.
Qed.

Lemma get_put_ne arr i j v : i ≠ j -> get (put arr i v) j = get arr j.
Proof.
  intros Hne. unfold get, put.
  destruct (Z.ltb_spec j 0); [done|]. destruct (Z.ltb_spec i 0); [done|].
  apply list_lookup_insert_ne. lia.
Qed.

Lemma put_None arr i v : get arr i = None -> put arr i v = arr.
Proof.
  unfold get, put. destruct (Z.ltb_spec i 0); [done|].
  intros Hn. apply list_insert_ge. by apply lookup_ge_None.
Qed.

Lemma Forall_put (P : A -> Prop) arr i v : Forall P arr -> P v -> Forall P (put arr i v).
Proof. intros Ha Hv. unfold put. destruct (i <? 0); [done|]. by apply Forall_insert. Qed.

Lemma Forall_get (P : A -> Prop) arr i v : Forall P arr -> get arr i = Some v -> P v.
Proof.
  unfold get. destruct (i <? 0); [done|]. intros Ha Hl.
  eapply Forall_lookup_1; eauto.
Qed.
End ArrayFacts.

Lemma int8_neg_spin s : spin s -> int8 (- s) = - s ∧ spin (- s).
Proof. intros [-> | ->]; split; try reflexivity; [by right | by left]. Qed.

(** ** Index arithmetic on the torus *)

Lemma site_coords N idx :
  0 < N -> 0 ≤ idx < N * N -> 0 ≤ Z.rem idx N < N ∧ 0 ≤ idx / N < N.
Proof.
  intros HN Hi. split.
  - apply Z.rem_bound_pos; lia.
  - split; [apply Z.div_pos; lia | apply Z.div_lt_upper_bound; lia].
Qed.

Lemma cell_in_range N x y : 0 < N -> 0 ≤ x < N -> 0 ≤ y < N -> 0 ≤ y * N + x < N * N.
Proof. intros. nia. Qed.

Lemma wrap_in_range N a : 0 < N -> 0 ≤ a -> 0 ≤ Z.rem a N < N.
Proof. intros. apply Z.rem_bound_pos; lia. Qed.

Lemma site_of_coords N i : 0 < N -> 0 ≤ i -> i = IsingCore.getIdx N (Z.rem i N) (i / N).
Proof.
  intros HN Hi. unfold IsingCore.getIdx. rewrite Z.rem_mod_nonneg by lia.
  pose proof (Z.div_mod i N). lia.
Qed.

(** ** The Metropolis step engine *)

Module MetropolisFacts.
Import IsingCore.

Section Facts.
Context {num : Type} `{Number num}.
Variable Math_exp : num -> num.
Variable rnd : Rng num.

Lemma neighborSum_spin grid N idx ns :
  Forall spin grid -> neighborSum grid N idx = Some ns -> ns ∈ [-4; -2; 0; 2; 4].
Proof.
  intros Hg Hn. unfold neighborSum in Hn. simplify_option_eq.
  repeat match goal with
         | Hx : get grid _ = Some _ |- _ => apply (Forall_get _ _ _ _ Hg) in Hx
         end.
  repeat match goal with
         | Hx : spin _ |- _ => destruct Hx as [-> | ->]
         end; simpl; set_solver.
Qed.

Lemma deltaE_spin grid N idx d :
  Forall spin grid -> deltaE grid N idx = Some d -> dE_domain d.
Proof.
  intros Hg Hd. unfold deltaE in Hd.
  destruct (get grid idx) as [s|] eqn:Hs; simpl in Hd; [|done].
  destruct (neighborSum grid N idx) as [ns|] eqn:Hn; simpl in Hd; [|done].
  injection Hd as <-.
  apply (Forall_get _ _ _ _ Hg) in Hs.
  apply (neighborSum_spin _ _ _ _ Hg) in Hn.
  unfold dE_domain. set_unfold.
  destruct Hs as [-> | ->]; lia.
Qed.

Lemma table_get_4 T :
  table_get (expTable Math_exp T) 4 = Some (Math_exp (n_div (n_neg (n_ofZ 4)) T)).
Proof. reflexivity. Qed.

Lemma table_get_8 T :
  table_get (expTable Math_exp T) 8 = Some (Math_exp (n_div (n_neg (n_ofZ 8)) T)).
Proof. reflexivity. Qed.

Lemma table_get_other T d : d ≠ 4 -> d ≠ 8 -> table_get (expTable Math_exp T) d = None.
Proof.
  intros H4 H8. unfold expTable. cbn [map table_get].
  rewrite (proj2 (Z.eqb_neq 4 d)), (proj2 (Z.eqb_neq 8 d)) by lia. done.
Qed.

Lemma neighborSum_defined grid N idx :
  0 < N -> length grid = Z.to_nat (N * N) -> 0 ≤ idx < N * N ->
  is_Some (neighborSum grid N idx).
Proof.
  intros HN Hlen Hi. destruct (site_coords N idx HN Hi) as [Hx Hy].
  unfold neighborSum.
  assert (Hget : forall x y, 0 ≤ x < N -> 0 ≤ y < N -> is_Some (get grid (y * N + x))).
  { intros x y Hx' Hy'. apply get_in_range. rewrite Hlen.
    pose proof (cell_in_range N x y HN Hx' Hy'). lia. }
  unfold leftIdx, rightIdx, topIdx, bottomIdx.
  destruct (Hget (Z.rem (Z.rem idx N - 1 + N) N) (idx / N)) as [l ->];
    [apply wrap_in_range; lia | done |].
  destruct (Hget (Z.rem (Z.rem idx N + 1) N) (idx / N)) as [r ->];
    [apply wrap_in_range; lia | done |].
  destruct (Hget (Z.rem idx N) (Z.rem (idx / N - 1 + N) N)) as [t ->];
    [done | apply wrap_in_range; lia |].
  destruct (Hget (Z.rem idx N) (Z.rem (idx / N + 1) N)) as [b ->];
    [done | apply wrap_in_range; lia |].
  simpl. eauto.
Qed.

Lemma deltaE_defined grid N idx :
  0 < N -> length grid = Z.to_nat (N * N) -> 0 ≤ idx < N * N ->
  is_Some (deltaE grid N idx).
Proof.
  intros HN Hlen Hi. unfold deltaE.
  destruct (get_in_range grid idx) as [s ->]; [lia|].
  destruct (neighborSum_defined grid N idx HN Hlen Hi) as [ns ->].
  simpl. eauto.
Qed.

(** One attempt keeps the length, and keeps every cell a spin. *)
Lemma attempt_length N table st : length (attempt rnd N table st).1 = length st.1.
Proof.
  destruct st as [grid c]. unfold attempt, store_neg.
  repeat case_match; simpl; by rewrite ?length_put.
Qed.

Lemma store_neg_spin grid idx : Forall spin grid -> Forall spin (store_neg grid idx (get grid idx)).
Proof.
  intros Hg. unfold store_neg. destruct (get grid idx) as [s|] eqn:Hs.
  - apply Forall_put; [done|]. rewrite (proj1 (int8_neg_spin s (Forall_get _ _ _ _ Hg Hs))).
    apply int8_neg_spin. eapply Forall_get; eauto.
  - by rewrite put_None.
Qed.

Lemma attempt_spin N table st : Forall spin st.1 -> Forall spin (attempt rnd N table st).1.
Proof.
  destruct st as [grid c]. simpl. intros Hg. unfold attempt.
  repeat case_match; simpl; auto using store_neg_spin.
Qed.

Lemma iter_attempt_length N table k st :
  length (Nat.iter k (attempt rnd N table) st).1 = length st.1.
Proof. induction k as [|k IH]; simpl; [done|]. by rewrite attempt_length. Qed.

Lemma iter_attempt_spin N table k st :
  Forall spin st.1 -> Forall spin (Nat.iter k (attempt rnd N table) st).1.
Proof. intros Hs. induction k as [|k IH]; simpl; [done|]. by apply attempt_spin. Qed.

Lemma iter_attempt_lattice N table k st M :
  lattice M st.1 -> lattice M (Nat.iter k (attempt rnd N table) st).1.
Proof.
  intros [Hl Hs]. split; [by rewrite iter_attempt_length | by apply iter_attempt_spin].
Qed.

Lemma performMCS_lattice M grid N T c :
  lattice M grid -> lattice M (performMCS Math_exp rnd grid N T c).1.
Proof. intros Hg. unfold performMCS. by apply iter_attempt_lattice. Qed.

(** [createGrid]: after the loop every cell has been written, each with a spin. *)
Lemma createGrid_loop_length k i c grid :
  length (createGrid_loop rnd k i c grid).1 = length grid.
Proof.
  revert i c grid. induction k as [|k IH]; intros i c grid; simpl; [done|].
  by rewrite IH, length_put.
Qed.

Lemma createGrid_loop_spin k i c grid :
  0 ≤ i -> (Z.to_nat i + k = length grid)%nat ->
  (forall j s, (j < Z.to_nat i)%nat -> grid !! j = Some s -> spin s) ->
  Forall spin (createGrid_loop rnd k i c grid).1.
Proof.
  revert i c grid. induction k as [|k IH]; intros i c grid Hi Hlen Hpre; simpl.
  - apply Forall_lookup_2. intros j s Hj. apply (Hpre j s); [|done].
    apply lookup_lt_Some in Hj. lia.
  - apply IH; [lia | rewrite length_put; lia |].
    intros j s Hj. unfold put. destruct (Z.ltb_spec i 0); [lia|].
    destruct (decide (j = Z.to_nat i)) as [-> | Hne].
    + rewrite list_lookup_insert_eq by lia. intros [= <-].
      destruct (n_lt _ _); [by left | by right].
    + rewrite list_lookup_insert_ne by done. apply Hpre. lia.
Qed.

Lemma createGrid_lattice N c : lattice N (createGrid rnd N c).1.
Proof.
  unfold createGrid. split.
  - by rewrite createGrid_loop_length, length_replicate.
  - apply createGrid_loop_spin; [done | simpl; lia |]. simpl. lia.
Qed.

(** C5.  On a lattice of side [N] (all cells +1 or -1), at every site
    [idx] the energy delta that [performMCS] computes from the four
    toroidal neighbours is a number (no read is out of range) and lies in
    {-8, -4, 0, 4, 8}; when it is positive it is 4 or 8, and the acceptance
    table has an entry under that key. *)
Theorem energy_delta_domain (grid : list Z) (N idx : Z) (T : num) :
  0 < N -> lattice N grid -> 0 ≤ idx < N * N ->
  exists s ns d,
    get grid idx = Some s ∧ neighborSum grid N idx = Some ns ∧
    deltaE grid N idx = Some d ∧ d = 2 * s * ns ∧
    dE_domain d ∧
    (0 < d -> (d = 4 ∨ d = 8) ∧ is_Some (table_get (expTable Math_exp T) d)).
Proof.
  intros HN [Hlen Hg] Hi.
  destruct (get_in_range grid idx) as [s Hs]; [lia|].
  destruct (neighborSum_defined grid N idx HN Hlen Hi) as [ns Hn].
  assert (Hd : deltaE grid N idx = Some (2 * s * ns)).
  { unfold deltaE. by rewrite Hs, Hn. }
  pose proof (deltaE_spin grid N idx _ Hg Hd) as Hdom.
  exists s, ns, (2 * s * ns). do 5 (split; [done|]).
  intros Hpos.
  assert (H48 : 2 * s * ns = 4 ∨ 2 * s * ns = 8).
  { clear -Hdom Hpos. unfold dE_domain in Hdom. set_unfold. lia. }
  split; [done|].
  destruct H48 as [-> | ->]; [rewrite table_get_4 | rewrite table_get_8]; eauto.
Qed.

(** C1.  In a sweep started on a grid of spins, take the k-th flip
    attempt, its site [idx], the spin [s] there and its energy delta [dE].
    If dE <= 0 the attempt negates the cell at [idx] and nothing else.  If
    dE > 0, the table built at the start of the sweep holds
    p = Math.exp(-dE / T) under dE, and with [u] the attempt's second draw:
    u < p negates the cell, otherwise the grid is left as it was. *)
Theorem metropolis_rule (grid : list Z) (N : Z) (T : num) (c k : nat) (s dE : Z) :
  Forall spin grid ->
  let table := expTable Math_exp T in
  let st := Nat.iter k (attempt rnd N table) (grid, c) in
  let idx := n_floor (n_mul (rnd st.2) (n_ofZ (N * N))) in
  let u := rnd (S st.2) in
  let grid' := (attempt rnd N table st).1 in
  get st.1 idx = Some s ->
  deltaE st.1 N idx = Some dE ->
  (dE ≤ 0 -> grid' = put st.1 idx (- s)) ∧
  (0 < dE ->
     exists p, table_get table dE = Some p ∧
               p = Math_exp (n_div (n_neg (n_ofZ dE)) T) ∧
               (n_lt u p = true -> grid' = put st.1 idx (- s)) ∧
               (n_lt u p = false -> grid' = st.1)).
Proof.
  intros Hg table st idx u grid' Hs Hd.
  assert (Hst : Forall spin st.1).
  { by apply iter_attempt_spin. }
  subst grid'. destruct st as [g cc] eqn:Est. simpl in *.
  fold idx. rewrite Hs, Hd. unfold store_neg.
  rewrite (proj1 (int8_neg_spin s (Forall_get _ _ _ _ Hst Hs))).
  split.
  - intros Hle. unfold le_zero. by rewrite (proj2 (Z.leb_le dE 0) Hle).
  - intros Hpos. unfold le_zero. rewrite (proj2 (Z.leb_gt dE 0) Hpos).
    pose proof (deltaE_spin g N idx dE Hst Hd) as Hdom.
    assert (H48 : dE = 4 ∨ dE = 8).
    { clear -Hdom Hpos. unfold dE_domain in Hdom. set_unfold. lia. }
    exists (Math_exp (n_div (n_neg (n_ofZ dE)) T)).
    split; [destruct H48 as [-> | ->]; reflexivity|].
    split; [done|].
    unfold lt_entry. fold u.
    assert (Ht : table_get table dE = Some (Math_exp (n_div (n_neg (n_ofZ dE)) T)))
      by (destruct H48 as [-> | ->]; reflexivity).
    change (Some dE ≫= table_get table) with (table_get table dE).
    rewrite Ht. split; intros ->; done.
Qed.

(** C4.  Every lattice state reachable by [createGrid] followed by any
    number of [performMCS] calls has N² cells, each of them +1 or -1. *)
Theorem reachable_lattice (N : Z) (grid : list Z) :
  reachable Math_exp rnd N grid -> lattice N grid.
Proof.
  induction 1 as [c | grid T c _ IH].
  - apply createGrid_lattice.
  - by apply performMCS_lattice.
Qed.

(** An uphill attempt whose draw is not below the table entry changes
    nothing, and a sweep made of such attempts neither. *)
Lemma attempt_rejects N table grid c :
  let idx := n_floor (n_mul (rnd c) (n_ofZ (N * N))) in
  le_zero (deltaE grid N idx) = false ->
  lt_entry (rnd (S c)) table (deltaE grid N idx) = false ->
  attempt rnd N table (grid, c) = (grid, S (S c)).
Proof. intros idx Hle Hlt. unfold attempt. fold idx. by rewrite Hle, Hlt. Qed.

Lemma iter_attempt_rejects N table grid k : forall c,
  (forall j, attempt rnd N table (grid, j) = (grid, S (S j))) ->
  Nat.iter k (attempt rnd N table) (grid, c) = (grid, (c + 2 * k)%nat).
Proof.
  intros c Hrej. induction k as [|k IH]; simpl.
  - f_equal. lia.
  - rewrite IH, Hrej. f_equal. lia.
Qed.

End Facts.
End MetropolisFacts.

(** ** Scenario: N = 2, all cells up, T = 1, draws stubbed to 0.5 *)

Module ScenarioFacts.
Import IsingCore.

Lemma exp_minus_8_small : (exp (Ropp 8 / 1) < 1 / 2)%R.
Proof.
  replace (Ropp 8 / 1)%R with (Ropp 8) by Lra.lra. rewrite exp_Ropp.
  assert (H9 : (9 < exp 8)%R) by (pose proof (exp_ineq1 8); Lra.lra).
  assert (Hinv : (/ exp 8 < / 9)%R) by (apply Rinv_lt_contravar; Lra.lra).
  Lra.lra.
Qed.

Lemma stub_site : Int_part (1 / 2 * 4) = 2.
Proof. symmetry. apply Int_part_spec. simpl. Lra.lra. Qed.

Lemma stub_rejected :
  lt_entry (1 / 2)%R (expTable exp 1%R) (Some 8) = false.
Proof.
  unfold lt_entry. simpl. unfold R_ltb.
  destruct (Rlt_dec _ _) as [Hlt | _]; [|done].
  pose proof exp_minus_8_small. Lra.lra.
Qed.

(** C8.  N = 2, all four cells +1, T = 1.  At every cell the left and
    right neighbours are one and the same other cell, as are the top and
    bottom ones, so neighborSum = 4 and dE = 8 > 0.  exp(-8/1) is below 0.5,
    so with [Math.random] stubbed to 0.5 a full sweep of [performMCS] leaves
    the grid as it was, and [analyzeDomains] returns exactly [(4, 1)]. *)
Theorem scenario_all_up :
  let grid := [1; 1; 1; 1] in
  Forall (fun idx =>
            leftIdx 2 idx = rightIdx 2 idx ∧ leftIdx 2 idx ≠ idx ∧
            topIdx 2 idx = bottomIdx 2 idx ∧ topIdx 2 idx ≠ idx ∧
            neighborSum grid 2 idx = Some 4 ∧ deltaE grid 2 idx = Some 8)
         [0; 1; 2; 3] ∧
  (exp (Ropp 8 / 1) < 1 / 2)%R ∧
  (forall c, performMCS exp (fun _ => (1 / 2)%R) grid 2 1%R c = (grid, (c + 8)%nat)) ∧
  analyzeDomains grid 2 = Some ([(4, 1)], grid).
Proof.
  intros grid. split; [|split; [|split]].
  - repeat constructor; simpl; discriminate.
  - exact exp_minus_8_small.
  - intros c. unfold performMCS.
    change (Z.to_nat (2 * 2)) with 4%nat.
    rewrite (MetropolisFacts.iter_attempt_rejects _ 2 _ grid 4 c); [done|].
    intros j. apply MetropolisFacts.attempt_rejects; simpl n_floor; simpl n_mul;
      change (IZR (2 * 2)) with 4%R; rewrite stub_site; [done|].
    exact stub_rejected.
  - reflexivity.
Qed.

(** The same whatever sites the sweep picks, as long as no draw is below
    exp(-8): a site outside the array yields NaN, which flips nothing. *)
Lemma all_up_dE idx :
  deltaE [1; 1; 1; 1] 2 idx = Some 8 ∨ deltaE [1; 1; 1; 1] 2 idx = None.
Proof.
  destruct (decide (0 ≤ idx < 4)) as [Hin | Hout].
  - left. assert (Hc : idx = 0 ∨ idx = 1 ∨ idx = 2 ∨ idx = 3) by lia.
    destruct Hc as [-> | [-> | [-> | ->]]]; reflexivity.
  - right. unfold deltaE, get. destruct (Z.ltb_spec idx 0); [done|].
    rewrite (proj2 (lookup_ge_None _ _)); [done|]. simpl. lia.
Qed.

Lemma all_up_sweep_any_site (rnd : Rng R) (c : nat) :
  (forall j, (exp (Ropp 8 / 1) <= rnd j)%R) ->
  performMCS exp rnd [1; 1; 1; 1] 2 1%R c = ([1; 1; 1; 1], (c + 8)%nat).
Proof.
  intros Hrnd. unfold performMCS. change (Z.to_nat (2 * 2)) with 4%nat.
  rewrite (MetropolisFacts.iter_attempt_rejects _ 2 _ [1; 1; 1; 1] 4 c); [done|].
  intros j. apply MetropolisFacts.attempt_rejects;
    destruct (all_up_dE (n_floor (n_mul (rnd j) (n_ofZ (2 * 2))))) as [-> | ->];
    try done.
  unfold lt_entry. simpl. unfold R_ltb.
  destruct (Rlt_dec _ _) as [Hlt | _]; [|done].
  specialize (Hrnd (S j)). Lra.lra.
Qed.

End ScenarioFacts.

(** ** The domain analyzer *)

Module DomainFacts.
Import IsingCore.

Lemma zeros_replicate n : zeros (replicate n 0) = n.
Proof. induction n as [|n IH]; simpl; [done|]. by rewrite IH. Qed.

Lemma zeros_mark (v : list Z) (i : nat) :
  v !! i = Some 0 -> S (zeros (<[i:=1]> v)) = zeros v.
Proof.
  revert i. induction v as [|z v IH]; intros [|i] Hi; simpl in *; try done.
  - by injection Hi as ->.
  - rewrite <- (IH i Hi). by destruct (z =? 0).
Qed.

Lemma zeros_none (v : list Z) :
  (forall i, (i < length v)%nat -> truthy (v !! i) = true) -> zeros v = 0%nat.
Proof.
  induction v as [|z v IH]; intros Hall; simpl; [done|].
  rewrite IH.
  - specialize (Hall 0%nat). simpl in Hall.
    destruct (z =? 0); [|done]. simpl in Hall. discriminate Hall. lia.
  - intros i Hi. apply (Hall (S i)). simpl. lia.
Qed.

Lemma pop_None q : pop q = None -> q = [].
Proof. destruct q as [|x q]; [done|]. simpl. by repeat case_match. Qed.

Lemma pop_Some q r x : pop q = Some (r, x) -> q = r ++ [x].
Proof.
  revert r x. induction q as [|y q IH]; intros r x; simpl; [done|].
  destruct (pop q) as [[r' x']|] eqn:Hp.
  - intros [= <- <-]. simpl. f_equal. by apply IH.
  - intros [= <- <-]. by rewrite (pop_None q Hp).
Qed.

Lemma heap_ext_refl h : heap_ext h h.
Proof. by repeat split. Qed.

Lemma heap_ext_trans h1 h2 h3 : heap_ext h1 h2 -> heap_ext h2 h3 -> heap_ext h1 h3.
Proof.
  intros (Hg1 & Hs1 & Hv1) (Hg2 & Hs2 & Hv2). repeat split; [congruence..|].
  intros i Hi. by apply Hv2, Hv1.
Qed.

Lemma truthy_put_mono (v : list Z) i j :
  truthy (get v j) = true -> truthy (get (put v i 1) j) = true.
Proof.
  intros Hj. destruct (decide (i = j)) as [-> | Hne].
  - rewrite get_put_eq; [done|]. destruct (get v j); [eauto | done].
  - by rewrite get_put_ne.
Qed.

Lemma unmarked_lookup (v : list Z) i :
  0 ≤ i < Z.of_nat (length v) -> truthy (get v i) = false -> v !! Z.to_nat i = Some 0.
Proof.
  intros Hi Ht. destruct (get_in_range v i Hi) as [z Hz].
  rewrite Hz in Ht. simpl in Ht. unfold get in Hz.
  destruct (Z.ltb_spec i 0); [lia|]. rewrite Hz. f_equal.
  destruct (Z.eqb_spec z 0); [done | discriminate].
Qed.

Lemma visit_spec N spinType h n :
  heap_ok N h -> site N (getIdx N n.1 n.2) ->
  heap_ok N (visit N spinType h n) ∧ heap_ext h (visit N spinType h n) ∧
  pending (visit N spinType h n) = pending h.
Proof.
  intros [Hlen Hq] Hn. unfold visit.
  destruct (negb (truthy _) && _) eqn:Hc.
  - apply andb_prop in Hc as [Hu _]. apply negb_true_iff in Hu.
    assert (Hz : h_visited h !! Z.to_nat (getIdx N n.1 n.2) = Some 0).
    { apply unmarked_lookup; [|done]. unfold site in Hn. lia. }
    split; [|split].
    + split; simpl; [by rewrite length_put|].
      apply Forall_app. split; [done | by constructor].
    + repeat split; simpl. intros i. apply truthy_put_mono.
    + unfold pending. simpl. rewrite length_app. simpl. unfold put.
      unfold site in Hn. destruct (Z.ltb_spec (getIdx N n.1 n.2) 0); [lia|].
      pose proof (zeros_mark _ _ Hz). lia.
  - split; [done|]. split; [apply heap_ext_refl | done].
Qed.

Lemma neighbors_site N curr :
  0 < N -> site N curr -> Forall (fun n => site N (getIdx N n.1 n.2)) (neighbors N curr).
Proof.
  intros HN Hc. destruct (site_coords N curr HN Hc) as [Hx Hy].
  unfold neighbors, site, getIdx.
  repeat constructor; simpl; apply cell_in_range; try done; apply wrap_in_range; lia.
Qed.

Lemma foldl_visit_spec N spinType ns : forall h,
  heap_ok N h -> Forall (fun n => site N (getIdx N n.1 n.2)) ns ->
  heap_ok N (foldl (visit N spinType) h ns) ∧
  heap_ext h (foldl (visit N spinType) h ns) ∧
  pending (foldl (visit N spinType) h ns) = pending h.
Proof.
  induction ns as [|n ns IH]; intros h Hok Hns; simpl.
  - split; [done|]. split; [apply heap_ext_refl | done].
  - inversion Hns as [|? ? Hn Hns']; subst.
    destruct (visit_spec N spinType h n Hok Hn) as (Hok1 & Hext1 & Hp1).
    destruct (IH _ Hok1 Hns') as (Hok2 & Hext2 & Hp2).
    split; [done|]. split; [by eapply heap_ext_trans | congruence].
Qed.

Lemma flood_S fuel N spinType h size :
  flood (S fuel) N spinType h size =
  match pop (h_queue h) with
  | None => Some (h, size, S fuel)
  | Some (rest, curr) =>
      flood fuel N spinType
        (foldl (visit N spinType) (mkHeap (h_grid h) (h_visited h) rest (h_sizes h))
               (neighbors N curr))
        (size + 1)
  end.
Proof. reflexivity. Qed.

(** The [while] loop ends when it has [pending h] units of fuel: it pops
    exactly the cells it marks, and counts each of them once. *)
Lemma flood_spec N spinType fuel : 0 < N -> forall h size,
  heap_ok N h -> (pending h ≤ fuel)%nat ->
  exists h' fuel',
    flood fuel N spinType h size
      = Some (h', size + Z.of_nat (pending h - zeros (h_visited h')), fuel') ∧
    heap_ok N h' ∧ heap_ext h h' ∧ h_queue h' = [] ∧
    (zeros (h_visited h') ≤ pending h)%nat ∧
    (fuel' + pending h = fuel + zeros (h_visited h'))%nat.
Proof.
  intros HN. induction fuel as [|fuel IH]; intros h size Hok Hfuel.
  - assert (Hq : h_queue h = []).
    { unfold pending in Hfuel. destruct (h_queue h); [done | simpl in Hfuel; lia]. }
    exists h, 0%nat. simpl. rewrite Hq. simpl. unfold pending. rewrite Hq. simpl.
    replace (zeros (h_visited h) - zeros (h_visited h))%nat with 0%nat by lia.
    rewrite Z.add_0_r. repeat split; try done; try apply Hok.
  - rewrite flood_S. destruct (pop (h_queue h)) as [[rest curr]|] eqn:Hpop.
    + apply pop_Some in Hpop. destruct Hok as [Hlen Hq].
      rewrite Hpop in Hq. apply Forall_app in Hq as [Hrest Hcurr].
      inversion Hcurr as [|? ? Hsite _]; subst.
      set (h1 := mkHeap (h_grid h) (h_visited h) rest (h_sizes h)).
      assert (Hok1 : heap_ok N h1) by (split; done).
      assert (Hp1 : S (pending h1) = pending h).
      { unfold pending, h1. simpl. rewrite Hpop, length_app. simpl. lia. }
      destruct (foldl_visit_spec N spinType (neighbors N curr) h1 Hok1
                  (neighbors_site N curr HN Hsite)) as (Hok2 & Hext2 & Hp2).
      destruct (IH (foldl (visit N spinType) h1 (neighbors N curr)) (size + 1) Hok2)
        as (h' & fuel' & Hrun & Hok' & Hext' & Hq' & Hz' & Hf'); [lia|].
      exists h', fuel'. rewrite Hrun. split; [do 3 f_equal; lia|].
      split; [done|]. split.
      { eapply heap_ext_trans; [|exact Hext'].
        eapply heap_ext_trans; [|exact Hext2]. by repeat split. }
      split; [done|]. split; lia.
    + apply pop_None in Hpop. exists h, (S fuel). unfold pending. rewrite Hpop. simpl.
      replace (zeros (h_visited h) - zeros (h_visited h))%nat with 0%nat by lia.
      rewrite Z.add_0_r. repeat split; try done; try apply Hok.
Qed.

Lemma sumZ_snoc l s : sumZ (l ++ [s]) = sumZ l + s.
Proof. unfold sumZ. induction l as [|x l IH]; simpl; lia. Qed.

Lemma scan_inv_weaken N F grid0 (D D' : Z -> Prop) st :
  (forall i, D' i -> D i) -> scan_inv N F grid0 D st -> scan_inv N F grid0 D' st.
Proof.
  intros HD (? & ? & ? & ? & ? & Hm). do 5 (split; [done|]).
  intros i Hi. by apply Hm, HD.
Qed.

(** One cell of the scan: either it is marked already, or its whole
    domain is flooded, marked and recorded. *)
Lemma cell_spec N F grid0 (D : Z -> Prop) x y st :
  0 < N -> (Z.to_nat (N * N) ≤ F)%nat -> 0 ≤ x < N -> 0 ≤ y < N ->
  scan_inv N F grid0 D st ->
  exists st', cell N y x st = Some st' ∧
              scan_inv N F grid0 (fun i => D i ∨ i = getIdx N x y) st'.
Proof.
  intros HN HF Hx Hy. destruct st as [h fuel].
  intros (Hok & Hq & Hg & Hsum & Hfuel & HD). simpl in *.
  pose proof (cell_in_range N x y HN Hx Hy) as Hsite. fold (getIdx N x y) in Hsite.
  unfold cell. destruct (truthy (get (h_visited h) (getIdx N x y))) eqn:Hv.
  - eexists. split; [done|]. repeat split; try done; try apply Hok.
    intros i [Hi | ->]; [by apply HD | done].
  - destruct Hok as [Hlen Hqok].
    assert (Hz : h_visited h !! Z.to_nat (getIdx N x y) = Some 0).
    { apply unmarked_lookup; [lia | done]. }
    set (h1 := mkHeap (h_grid h) (put (h_visited h) (getIdx N x y) 1)
                      [getIdx N x y] (h_sizes h)).
    assert (Hok1 : heap_ok N h1).
    { split; simpl; [by rewrite length_put | constructor; [exact Hsite | constructor]]. }
    assert (Hp1 : pending h1 = zeros (h_visited h)).
    { unfold pending, h1, put. simpl. destruct (Z.ltb_spec (getIdx N x y) 0); [lia|].
      apply (zeros_mark _ _ Hz). }
    destruct (flood_spec N (get (h_grid h) (getIdx N x y)) fuel HN h1 0 Hok1)
      as (h' & fuel' & Hrun & Hok' & (Hg' & Hs' & Hm') & Hq' & Hz' & Hf'); [lia|].
    rewrite Hrun. simpl. eexists. split; [done|].
    repeat split; simpl; try done; try apply Hok'.
    + by rewrite Hg'.
    + rewrite sumZ_snoc, Hs'. simpl. lia.
    + lia.
    + intros i [Hi | ->]; apply Hm'; simpl.
      * by apply truthy_put_mono, HD.
      * rewrite get_put_eq; [done|]. apply get_in_range. lia.
Qed.

(** A [for] loop whose body keeps an invariant, indexed by the values
    handled so far, runs to its end and establishes it for all of them. *)
Lemma for_each_spec {S} (I : list Z -> S -> Prop) (body : Z -> S -> option S) l :
  forall pre st,
    I pre st ->
    (forall p i s, I p s -> i ∈ l -> exists s', body i s = Some s' ∧ I (p ++ [i]) s') ->
    exists st', for_each l body st = Some st' ∧ I (pre ++ l) st'.
Proof.
  induction l as [|i l IH]; intros pre st Hst Hbody; simpl.
  - exists st. by rewrite app_nil_r.
  - destruct (Hbody pre i st Hst) as (s' & -> & Hs'); [by left|]. simpl.
    destruct (IH (pre ++ [i]) s' Hs') as (st' & Hrun & Hst').
    { intros p j s Hp Hj. apply Hbody; [done | by right]. }
    exists st'. split; [done|]. by rewrite <- app_assoc in Hst'.
Qed.

(** The two nested loops: every cell ends up marked. *)
Lemma scan_spec N F grid0 st :
  0 < N -> (Z.to_nat (N * N) ≤ F)%nat ->
  scan_inv N F grid0 (fun _ => False) st ->
  exists st', scan N st = Some st' ∧ scan_inv N F grid0 (site N) st'.
Proof.
  intros HN HF Hst. unfold scan.
  destruct (for_each_spec
    (fun p => scan_inv N F grid0
                (fun i => exists y x, y ∈ p ∧ 0 ≤ x < N ∧ i = getIdx N x y))
    (fun y => for_each (seqZ 0 N) (fun x => cell N y x)) (seqZ 0 N) [] st)
    as (st' & Hrun & Hst').
  - eapply scan_inv_weaken; [|exact Hst]. intros i (y & x & Hy & _). by apply elem_of_nil in Hy.
  - intros p y s Hs Hy. apply elem_of_seqZ in Hy.
    destruct (for_each_spec
      (fun q => scan_inv N F grid0
                  (fun i => (exists y' x, y' ∈ p ∧ 0 ≤ x < N ∧ i = getIdx N x y') ∨
                            exists x, x ∈ q ∧ i = getIdx N x y))
      (fun x => cell N y x) (seqZ 0 N) [] s) as (s' & Hrun & Hs').
    + eapply scan_inv_weaken; [|exact Hs]. intros i [Hi | (x & Hx & _)]; [done|].
      by apply elem_of_nil in Hx.
    + intros q x s0 Hs0 Hx. apply elem_of_seqZ in Hx.
      destruct (cell_spec N F grid0 _ x y s0 HN HF ltac:(lia) ltac:(lia) Hs0) as (s1 & Hc & Hs1).
      exists s1. split; [done|]. eapply scan_inv_weaken; [|exact Hs1].
      intros i [Hi | (x' & Hx' & ->)]; [by left; left|].
      apply elem_of_app in Hx' as [Hx' | Hx'].
      * left. right. eauto.
      * apply list_elem_of_singleton in Hx' as ->. by right.
    + exists s'. split; [done|]. eapply scan_inv_weaken; [|exact Hs'].
      intros i (y' & x & Hy' & Hx & ->).
      apply elem_of_app in Hy' as [Hy' | Hy'].
      * left. eauto.
      * apply list_elem_of_singleton in Hy' as ->. right. exists x. split; [|done].
        apply elem_of_seqZ. lia.
  - exists st'. split; [done|]. eapply scan_inv_weaken; [|exact Hst'].
    intros i Hi. unfold site in Hi. exists (i / N), (Z.rem i N).
    destruct (site_coords N i HN Hi) as [Hx Hy].
    split; [apply elem_of_seqZ; lia|]. split; [done|]. apply site_of_coords; lia.
Qed.

Lemma scan_inv_init N F grid :
  0 ≤ N ->
  scan_inv N F grid (fun _ => False)
    (mkHeap grid (replicate (Z.to_nat (N * N)) 0) [] [], F).
Proof.
  intros HN. repeat split; simpl; try done.
  - by rewrite length_replicate.
  - rewrite zeros_replicate. unfold sumZ. simpl. nia.
  - rewrite zeros_replicate. lia.
Qed.

(** When the scan is over nothing is left unmarked. *)
Lemma scan_inv_done N F grid0 st :
  scan_inv N F grid0 (site N) st -> zeros (h_visited st.1) = 0%nat.
Proof.
  intros ([Hlen _] & _ & _ & _ & _ & Hm). apply zeros_none. intros i Hi.
  specialize (Hm (Z.of_nat i)). unfold get in Hm.
  destruct (Z.ltb_spec (Z.of_nat i) 0); [lia|]. rewrite Nat2Z.id in Hm.
  apply Hm. unfold site. rewrite Hlen in Hi. nia.
Qed.

(** The histogram counts every recorded cell once. *)
Lemma cells_counted_tally s d : cells_counted (tally s d) = s + cells_counted d.
Proof.
  induction d as [|[k n] d IH]; simpl; [lia|].
  destruct (Z.eqb_spec s k) as [-> | _]; [|destruct (s <? k)]; simpl.
  - destruct (Z.eqb_spec n 0) as [-> | _]; lia.
  - lia.
  - rewrite IH. lia.
Qed.

Lemma cells_counted_foldl_tally sizes : forall d,
  cells_counted (foldl (fun d s => tally s d) d sizes) = cells_counted d + sumZ sizes.
Proof.
  induction sizes as [|s sizes IH]; intros d; simpl; [lia|].
  rewrite IH, cells_counted_tally. unfold sumZ. simpl. lia.
Qed.

Lemma cells_counted_sort_insert e l :
  cells_counted (sort_insert e l) = e.1 * e.2 + cells_counted l.
Proof.
  induction l as [|e' l IH]; simpl; [done|].
  destruct (e'.1 - e.1 <=? 0); simpl; [rewrite IH|]; lia.
Qed.

Lemma cells_counted_sort l : cells_counted (sort_by_size l) = cells_counted l.
Proof.
  unfold sort_by_size.
  assert (Hgen : forall acc, cells_counted (foldl (fun acc e => sort_insert e acc) acc l)
                             = cells_counted acc + cells_counted l).
  { induction l as [|e l IH]; intros acc; simpl; [lia|].
    rewrite IH, cells_counted_sort_insert. lia. }
  rewrite Hgen. simpl. lia.
Qed.

(** Only an unmarked cell is pushed, and it is marked as it is pushed. *)
Lemma visit_push N spinType h n :
  h_queue (visit N spinType h n) ≠ h_queue h ->
  truthy (get (h_visited h) (getIdx N n.1 n.2)) = false ∧
  h_visited (visit N spinType h n) = put (h_visited h) (getIdx N n.1 n.2) 1 ∧
  h_queue (visit N spinType h n) = h_queue h ++ [getIdx N n.1 n.2].
Proof.
  unfold visit. destruct (negb (truthy _) && _) eqn:Hc; [|done].
  intros _. apply andb_prop in Hc as [Hu _]. by apply negb_true_iff in Hu.
Qed.

Lemma analyzeDomains_fuel_spec (fuel : nat) (grid : list Z) (N : Z) :
  0 < N -> (Z.to_nat (N * N) ≤ fuel)%nat ->
  exists dist,
    analyzeDomains_fuel fuel grid N = Some (dist, grid, (fuel - Z.to_nat (N * N))%nat) ∧
    cells_counted dist = N * N.
Proof.
  intros HN Hfuel. unfold analyzeDomains_fuel.
  destruct (scan_spec N fuel grid _ HN Hfuel (scan_inv_init N fuel grid ltac:(lia)))
    as ([h fuel'] & -> & Hinv).
  pose proof (scan_inv_done _ _ _ _ Hinv) as Hz.
  destruct Hinv as (_ & _ & Hg & Hsum & Hf & _). simpl in *.
  eexists. split.
  - do 2 f_equal; [by rewrite Hg | lia].
  - rewrite cells_counted_sort, cells_counted_foldl_tally. simpl. lia.
Qed.

Lemma analyzeDomains_spec (grid : list Z) (N : Z) :
  0 < N ->
  exists dist, analyzeDomains grid N = Some (dist, grid) ∧ cells_counted dist = N * N.
Proof.
  intros HN. unfold analyzeDomains.
  destruct (analyzeDomains_fuel_spec (Z.to_nat (N * N)) grid N HN) as (dist & -> & Hd); [lia|].
  exists dist. by split.
Qed.

(** The analysis always returns, and hands the grid back as it got it. *)
Lemma analyzeDomains_total (grid : list Z) (N : Z) :
  exists dist, analyzeDomains grid N = Some (dist, grid).
Proof.
  destruct (Z.lt_ge_cases 0 N) as [HN | HN].
  - destruct (analyzeDomains_spec grid N HN) as (dist & Hd & _). eauto.
  - unfold analyzeDomains, analyzeDomains_fuel, scan. rewrite seqZ_nil by lia.
    simpl. eauto.
Qed.

(** C3.  For a lattice of side N > 0, [analyzeDomains] returns, and the
    (size, count) pairs it returns satisfy: the sum of size × count is N².
    (This holds whatever the cells contain.) *)
Theorem domain_partition (grid : list Z) (N : Z) :
  0 < N -> length grid = Z.to_nat (N * N) ->
  exists dist,
    analyzeDomains grid N = Some (dist, grid) ∧ cells_counted dist = N * N.
Proof.
  intros HN _. destruct (analyzeDomains_spec grid N HN) as (dist & -> & Hd).
  exists dist. by split.
Qed.

(** C10.  On a grid of N² cells (N > 0) [analyzeDomains] terminates: given
    any bound [fuel] >= N² on the number of [queue.pop()] calls over all
    components, the analysis returns its result with [fuel] - N² of it left,
    that is after N² pops in all. *)
Theorem analysis_terminates (grid : list Z) (N : Z) (fuel : nat) :
  0 < N -> length grid = Z.to_nat (N * N) -> (Z.to_nat (N * N) ≤ fuel)%nat ->
  exists dist,
    analyzeDomains_fuel fuel grid N = Some (dist, grid, (fuel - Z.to_nat (N * N))%nat).
Proof.
  intros HN _ Hfuel.
  destruct (analyzeDomains_fuel_spec fuel grid N HN Hfuel) as (dist & Hrun & _). eauto.
Qed.

(** C9.  [analyzeDomains] leaves the grid it is given as it was, and a
    second call on the grid as the first call left it returns the same
    (size, count) sequence. *)
Theorem analysis_pure (grid grid' : list Z) (N : Z) (dist : list (Z * Z)) :
  analyzeDomains grid N = Some (dist, grid') ->
  grid' = grid ∧ analyzeDomains grid' N = Some (dist, grid').
Proof.
  intros Hrun. destruct (analyzeDomains_total grid N) as (dist' & Hd).
  rewrite Hd in Hrun. injection Hrun as -> ->. by split.
Qed.

End DomainFacts.

(** ** The step scheduler, the throttle policy and the actions *)

Module AppFacts.
Import App.

Section Facts.
Context {num : Type} `{Number num}.
Variable Math_exp : num -> num.
Variable rnd : Rng num.

Implicit Types st : State (num:=num).

Lemma count_calls_snoc (c c' : Call) (l : list Call) :
  length (filter (fun x => x = c) (l ++ [c'])) =
  (length (filter (fun x => x = c) l) + if decide (c' = c) then 1 else 0)%nat.
Proof.
  rewrite filter_app, length_app. f_equal.
  rewrite filter_cons, filter_nil. by destruct (decide (c' = c)).
Qed.

Lemma filter_replicate_other (c c' : Call) n :
  c' ≠ c -> filter (fun x => x = c) (replicate n c') = [].
Proof.
  intros Hne. induction n as [|n IH]; [done|]. cbn [replicate]. rewrite filter_cons.
  destruct (decide _) as [Heq | _]; [done | exact IH].
Qed.

Lemma filter_replicate_same (c : Call) n :
  filter (fun x => x = c) (replicate n c) = replicate n c.
Proof.
  induction n as [|n IH]; [done|]. cbn [replicate]. rewrite filter_cons.
  destruct (decide _) as [_ | Hne]; [by rewrite IH | done].
Qed.

Lemma call_performMCS_spec st :
  same_controls st (call_performMCS Math_exp rnd st) ∧
  calls (call_performMCS Math_exp rnd st) = calls st ++ [CallPerformMCS].
Proof.
  unfold call_performMCS. destruct (IsingCore.performMCS _ _ _ _ _ _) as [g c].
  by repeat split.
Qed.

Lemma iter_performMCS_spec n st :
  same_controls st (Nat.iter n (call_performMCS Math_exp rnd) st) ∧
  calls (Nat.iter n (call_performMCS Math_exp rnd) st)
    = calls st ++ replicate n CallPerformMCS.
Proof.
  induction n as [|n [IHc IHl]]; simpl.
  - split; [by repeat split | by rewrite app_nil_r].
  - destruct (call_performMCS_spec (Nat.iter n (call_performMCS Math_exp rnd) st))
      as [Hc Hl].
    split.
    + unfold same_controls in *. intuition congruence.
    + rewrite Hl, IHl, <- app_assoc. f_equal. symmetry. apply replicate_cons_app.
Qed.

Lemma call_analyzeDomains_spec st :
  exists st', call_analyzeDomains st = Some st' ∧ same_controls st st' ∧
              gridRef st' = gridRef st ∧
              calls st' = calls st ++ [CallAnalyzeDomains].
Proof.
  unfold call_analyzeDomains.
  destruct (DomainFacts.analyzeDomains_total (gridRef st) (size st)) as (dist & ->).
  simpl. eexists. split; [done|]. by repeat split.
Qed.

(** What one frame does while the simulation runs. *)
Lemma loop_running st :
  isRunning st = true ->
  let acc := n_add (accumulatorRef st) (speedRef st) in
  let updates := n_floor acc in
  let analyse := n_lt (speedRef st) (n_ofZ 1) || (Z.rem (frameCountRef st + 1) 10 =? 0) in
  exists st',
    loop Math_exp rnd st = Some st' ∧
    size st' = size st ∧ isRunning st' = true ∧ tempRef st' = tempRef st ∧
    speedRef st' = speedRef st ∧
    (0 < updates ->
       accumulatorRef st' = n_sub acc (n_ofZ updates) ∧
       frameCountRef st' = frameCountRef st + 1 ∧
       calls st' = calls st ++ replicate (Z.to_nat updates) CallPerformMCS
                            ++ (if analyse then [CallAnalyzeDomains] else [])) ∧
    (updates ≤ 0 ->
       accumulatorRef st' = acc ∧ frameCountRef st' = frameCountRef st ∧
       calls st' = calls st).
Proof.
  intros Hrun acc updates analyse. unfold loop. rewrite Hrun.
  cbn [accumulatorRef set_accumulator]. fold acc. fold updates.
  destruct (Z.ltb_spec 0 updates) as [Hpos | Hle].
  - set (st2 := set_accumulator (set_accumulator st acc) (n_sub acc (n_ofZ updates))).
    destruct (iter_performMCS_spec (Z.to_nat updates) st2)
      as [(Hsz & Hr & Ht & Hsp & Hacc & Hfc) Hl].
    set (st3 := Nat.iter (Z.to_nat updates) (call_performMCS Math_exp rnd) st2) in *.
    cbn [speedRef frameCountRef set_frameCount setGridData_copy].
    rewrite Hsp, Hfc. cbn [speedRef frameCountRef st2 set_accumulator].
    fold analyse. destruct analyse.
    + destruct (call_analyzeDomains_spec
                  (set_frameCount (setGridData_copy st3) (frameCountRef st + 1)))
        as (st' & -> & (Hsz' & Hr' & Ht' & Hsp' & Hacc' & Hfc') & _ & Hl').
      exists st'. split; [done|]. simpl in *.
      rewrite Hsz', Hr', Ht', Hsp', Hacc', Hfc', Hl', Hsz, Hr, Ht, Hsp, Hacc, Hl.
      do 4 (split; [done|]). split; [|lia]. intros _. by rewrite <- app_assoc.
    + eexists. split; [done|]. simpl.
      rewrite Hsz, Hr, Ht, Hsp, Hacc, Hl.
      do 4 (split; [done|]). split; [|lia]. intros _. by rewrite app_nil_r.
  - eexists. split; [done|]. simpl. do 4 (split; [done|]). split; [lia | done].
Qed.

(** C7.  On a frame of the running simulation that executes at least one
    sweep, the frame counter goes up by one and [analyzeDomains] is
    called, once, if and only if speedFactor < 1 or the new value of the
    frame counter (the number of sweep-executing frames since the last
    reset) is a multiple of 10; otherwise it is not called. *)
Theorem throttle_policy st :
  isRunning st = true ->
  0 < n_floor (n_add (accumulatorRef st) (speedRef st)) ->
  exists st',
    loop Math_exp rnd st = Some st' ∧
    frameCountRef st' = frameCountRef st + 1 ∧
    (n_lt (speedRef st) (n_ofZ 1) = true ∨ Z.rem (frameCountRef st') 10 = 0 ->
       count_calls CallAnalyzeDomains st' = S (count_calls CallAnalyzeDomains st)) ∧
    (¬ (n_lt (speedRef st) (n_ofZ 1) = true ∨ Z.rem (frameCountRef st') 10 = 0) ->
       count_calls CallAnalyzeDomains st' = count_calls CallAnalyzeDomains st).
Proof.
  intros Hrun Hpos.
  destruct (loop_running st Hrun) as (st' & Hl & _ & _ & _ & _ & Hsweep & _).
  destruct (Hsweep Hpos) as (_ & Hfc & Hcalls).
  exists st'. split; [done|]. split; [done|].
  unfold count_calls. rewrite Hcalls, Hfc, !filter_app, !length_app.
  rewrite filter_replicate_other by done. simpl.
  split.
  - intros Hc.
    assert (Hb : n_lt (speedRef st) (n_ofZ 1) || (Z.rem (frameCountRef st + 1) 10 =? 0) = true).
    { destruct Hc as [-> | Hc]; [done|]. rewrite (proj2 (Z.eqb_eq _ _) Hc). apply orb_true_r. }
    rewrite Hb. simpl. lia.
  - intros Hc.
    assert (Hb : n_lt (speedRef st) (n_ofZ 1) || (Z.rem (frameCountRef st + 1) 10 =? 0) = false).
    { apply orb_false_intro.
      - destruct (n_lt _ _); [|done]. exfalso. apply Hc. by left.
      - apply Z.eqb_neq. intros Hz. apply Hc. by right. }
    rewrite Hb. simpl. lia.
Qed.

(** C6 (as the code has it).  Step-once leaves the accumulator and the
    frame counter alone and makes exactly one [performMCS] call followed
    by exactly one [analyzeDomains] call.  Reset makes neither: it calls
    [createGrid] once, stops the run, clears the statistics and sets the
    accumulator and the frame counter to 0. *)
Theorem step_and_reset st :
  (exists st', handleStep Math_exp rnd st = Some st' ∧
               calls st' = calls st ++ [CallPerformMCS; CallAnalyzeDomains] ∧
               same_controls st st' ∧ one_sweep_one_analysis st st') ∧
  (calls (handleReset rnd st) = calls st ++ [CallCreateGrid] ∧
   count_calls CallPerformMCS (handleReset rnd st) = count_calls CallPerformMCS st ∧
   count_calls CallAnalyzeDomains (handleReset rnd st) = count_calls CallAnalyzeDomains st ∧
   accumulatorRef (handleReset rnd st) = n_ofZ 0 ∧
   frameCountRef (handleReset rnd st) = 0 ∧
   isRunning (handleReset rnd st) = false ∧
   stats (handleReset rnd st) = [] ∧
   gridRef (handleReset rnd st) = (IsingCore.createGrid rnd (size st) (drawn st)).1).
Proof.
  split.
  - unfold handleStep.
    destruct (call_performMCS_spec st) as [(Hsz & Hr & Ht & Hsp & Hacc & Hfc) Hl].
    destruct (call_analyzeDomains_spec (setGridData_copy (call_performMCS Math_exp rnd st)))
      as (st' & -> & (Hsz' & Hr' & Ht' & Hsp' & Hacc' & Hfc') & _ & Hl').
    simpl in *. exists st'. split; [done|].
    assert (Hcalls : calls st' = calls st ++ [CallPerformMCS; CallAnalyzeDomains]).
    { by rewrite Hl', Hl, <- app_assoc. }
    split; [done|]. split.
    + unfold same_controls. intuition congruence.
    + unfold one_sweep_one_analysis, count_calls. rewrite Hcalls, !filter_app, !length_app.
      cbn. repeat (destruct (decide _) as [?|?]; try done); simpl; lia.
  - unfold handleReset. destruct (IsingCore.createGrid rnd (size st) (drawn st)) as [g c].
    simpl. unfold count_calls. simpl. rewrite !filter_app, !length_app. cbn.
    repeat (destruct (decide _) as [?|?]; try done); simpl;
      repeat split; try done; lia.
Qed.

End Facts.
(** *** The scheduler in exact arithmetic *)

Lemma Qfloor_unique (x : Q) (k : Z) :
  (inject_Z k <= x)%Q -> (x < inject_Z (k + 1))%Q -> Qfloor x = k.
Proof.
  intros Hle Hlt. apply Z.le_antisymm.
  - assert (Hk : Qfloor x < k + 1); [|lia].
    rewrite Zlt_Qlt. eapply Qle_lt_trans; [apply Qfloor_le | exact Hlt].
  - rewrite <- (Qfloor_Z k). by apply Qfloor_resp_le.
Qed.

Section Exact.
Variable Math_exp : Q -> Q.
Variable rnd : Rng Q.
Implicit Types st : State (num:=Q).

Lemma loop_exact st :
  isRunning st = true ->
  (0 <= accumulatorRef st)%Q -> (0 < speedRef st)%Q ->
  let u := Qfloor (accumulatorRef st + speedRef st) in
  exists st',
    loop Math_exp rnd st = Some st' ∧ isRunning st' = true ∧
    speedRef st' = speedRef st ∧ 0 ≤ u ∧
    (accumulatorRef st' == accumulatorRef st + speedRef st - inject_Z u)%Q ∧
    count_calls CallPerformMCS st' = (count_calls CallPerformMCS st + Z.to_nat u)%nat.
Proof.
  intros Hrun Hacc Hf u.
  destruct (loop_running Math_exp rnd st Hrun)
    as (st' & Hl & _ & Hr & _ & Hsp & Hsweep & Hidle).
  change (n_floor (n_add (accumulatorRef st) (speedRef st))) with u in Hsweep, Hidle.
  assert (Hu : 0 ≤ u).
  { rewrite <- (Qfloor_Z 0). apply Qfloor_resp_le. change (inject_Z 0) with 0%Q. Lqa.lra. }
  exists st'. do 4 (split; [done|]).
  destruct (Z.lt_ge_cases 0 u) as [Hpos | Hzero].
  - destruct (Hsweep Hpos) as (Ha & _ & Hc). split.
    + rewrite Ha. reflexivity.
    + unfold count_calls. rewrite Hc, !filter_app, !length_app.
      rewrite filter_replicate_same, length_replicate.
      destruct (n_lt _ _ || _); cbn; [destruct (decide _); [done|]|]; simpl; lia.
  - destruct (Hidle Hzero) as (Ha & _ & Hc). assert (u = 0) as -> by lia. split.
    + rewrite Ha. change (n_add (accumulatorRef st) (speedRef st))
        with (accumulatorRef st + speedRef st)%Q. change (inject_Z 0) with 0%Q. Lqa.lra.
    + unfold count_calls. rewrite Hc. simpl. lia.
Qed.

Lemma ticks_exact T : forall st,
  isRunning st = true ->
  (0 <= accumulatorRef st)%Q -> (accumulatorRef st < 1)%Q -> (0 < speedRef st)%Q ->
  exists st',
    ticks Math_exp rnd T st = Some st' ∧ isRunning st' = true ∧
    speedRef st' = speedRef st ∧
    (0 <= accumulatorRef st')%Q ∧ (accumulatorRef st' < 1)%Q ∧
    (inject_Z (Z.of_nat (count_calls CallPerformMCS st')) + accumulatorRef st' ==
     inject_Z (Z.of_nat (count_calls CallPerformMCS st)) + accumulatorRef st
     + speedRef st * inject_Z (Z.of_nat T))%Q.
Proof.
  induction T as [|T IH]; intros st Hrun Hlo Hhi Hf.
  - exists st. simpl. do 5 (split; [done|]). change (inject_Z (Z.of_nat 0)) with 0%Q. Lqa.lra.
  - destruct (loop_exact st Hrun Hlo Hf) as (st1 & Hl & Hr1 & Hsp1 & Hu & Ha1 & Hc1).
    pose proof (Qfloor_le (accumulatorRef st + speedRef st)) as Hfl.
    pose proof (Qlt_floor (accumulatorRef st + speedRef st)) as Hfu.
    rewrite inject_Z_plus in Hfu. change (inject_Z 1) with 1%Q in Hfu.
    destruct (IH st1 Hr1) as (st' & Hrun' & Hr' & Hsp' & Hlo' & Hhi' & Hsum').
    { rewrite Ha1. Lqa.lra. }
    { rewrite Ha1. Lqa.lra. }
    { by rewrite Hsp1. }
    exists st'. cbn [ticks]. rewrite Hl. simpl. split; [done|]. split; [done|].
    split; [congruence|]. split; [done|]. split; [done|].
    rewrite Hsum', Hc1, Ha1, Hsp1.
    rewrite Nat2Z.inj_add, Z2Nat.id, inject_Z_plus by done.
    rewrite Nat2Z.inj_succ. unfold Z.succ. rewrite inject_Z_plus.
    change (inject_Z 1) with 1%Q. Lqa.lra.
Qed.

(** C2 (in exact arithmetic).  Start the scheduler with accumulator 0 and
    run T frames at the same speedFactor f > 0, the additions and
    subtractions on the accumulator being exact.  Then the number of
    sweeps executed is floor(f·T), it differs from f·T by less than 1, and
    the accumulator is in [0, 1) after the T-th frame, whatever T. *)
Theorem throughput_exact (st : State (num:=Q)) (f : Q) (T : nat) :
  isRunning st = true -> (accumulatorRef st == 0)%Q -> speedRef st = f -> (0 < f)%Q ->
  exists st',
    ticks Math_exp rnd T st = Some st' ∧
    let sweeps := Z.of_nat (count_calls CallPerformMCS st')
                  - Z.of_nat (count_calls CallPerformMCS st) in
    sweeps = Qfloor (f * inject_Z (Z.of_nat T)) ∧
    (Qabs (inject_Z sweeps - f * inject_Z (Z.of_nat T)) < 1)%Q ∧
    (0 <= accumulatorRef st')%Q ∧ (accumulatorRef st' < 1)%Q.
Proof.
  intros Hrun Hacc Hsp Hf. subst f.
  destruct (ticks_exact T st Hrun) as (st' & Hl & _ & _ & Hlo & Hhi & Hsum);
    [rewrite Hacc; Lqa.lra.. | done |].
  exists st'. split; [done|]. cbn zeta.
  set (a := count_calls CallPerformMCS st') in *.
  set (b := count_calls CallPerformMCS st) in *.
  assert (Heq : (inject_Z (Z.of_nat a - Z.of_nat b) ==
                 speedRef st * inject_Z (Z.of_nat T) - accumulatorRef st')%Q).
  { unfold Z.sub. rewrite inject_Z_plus, inject_Z_opp. rewrite Hacc in Hsum. Lqa.lra. }
  split; [|split; [|split; [done|done]]].
  - symmetry. apply Qfloor_unique.
    + rewrite Heq. Lqa.lra.
    + rewrite inject_Z_plus, Heq. change (inject_Z 1) with 1%Q. Lqa.lra.
  - apply Qabs_Qlt_condition. rewrite Heq. split; Lqa.lra.
Qed.

(** X15.  At speedFactor >= 1 every frame executes a sweep, so the frame counter
    counts the frames and the analysis runs on every tenth of them: over T
    frames it runs once for each multiple of 10 the counter passes. *)
Lemma every_tenth_frame_exact T : forall st,
  isRunning st = true ->
  (0 <= accumulatorRef st)%Q -> (accumulatorRef st < 1)%Q -> (1 <= speedRef st)%Q ->
  0 ≤ frameCountRef st ->
  exists st',
    ticks Math_exp rnd T st = Some st' ∧ isRunning st' = true ∧
    speedRef st' = speedRef st ∧
    (0 <= accumulatorRef st')%Q ∧ (accumulatorRef st' < 1)%Q ∧
    frameCountRef st' = frameCountRef st + Z.of_nat T ∧
    Z.of_nat (count_calls CallAnalyzeDomains st') =
      Z.of_nat (count_calls CallAnalyzeDomains st)
      + ((frameCountRef st + Z.of_nat T) / 10 - frameCountRef st / 10).
Proof.
  induction T as [|T IH]; intros st Hrun Hlo Hhi Hf Hfc.
  - exists st. simpl. do 5 (split; [done|]). split; [lia|]. rewrite Z.add_0_r. lia.
  - destruct (loop_running Math_exp rnd st Hrun)
      as (st1 & Hl & _ & Hr1 & _ & Hsp1 & Hsweep & _).
    set (u := Qfloor (accumulatorRef st + speedRef st)).
    change (n_floor (n_add (accumulatorRef st) (speedRef st))) with u in Hsweep.
    assert (Hu : 1 ≤ u).
    { rewrite <- (Qfloor_Z 1). apply Qfloor_resp_le. change (inject_Z 1) with 1%Q. Lqa.lra. }
    destruct Hsweep as (Ha1 & Hfc1 & Hc1); [lia|].
    change (n_sub (n_add (accumulatorRef st) (speedRef st)) (n_ofZ u))
      with (accumulatorRef st + speedRef st - inject_Z u)%Q in Ha1.
    pose proof (Qfloor_le (accumulatorRef st + speedRef st)) as Hfl.
    pose proof (Qlt_floor (accumulatorRef st + speedRef st)) as Hfu.
    rewrite inject_Z_plus in Hfu. change (inject_Z 1) with 1%Q in Hfu. fold u in Hfl, Hfu.
    destruct (IH st1 Hr1) as (st' & Hrun' & Hr' & Hsp' & Hlo' & Hhi' & Hfc' & Hcnt').
    { rewrite Ha1. Lqa.lra. }
    { rewrite Ha1. Lqa.lra. }
    { by rewrite Hsp1. }
    { lia. }
    exists st'. cbn [ticks]. rewrite Hl. simpl. split; [done|]. split; [done|].
    split; [congruence|]. split; [done|]. split; [done|]. split; [lia|].
    rewrite Hcnt', Hfc1. unfold count_calls at 1. rewrite Hc1, !filter_app, !length_app.
    rewrite filter_replicate_other by done.
    assert (Hslow : n_lt (speedRef st) (n_ofZ 1) = false).
    { cbn. unfold Q_ltb. destruct (Qlt_le_dec _ _) as [Hlt | _]; [|done].
      change (inject_Z 1) with 1%Q in Hlt. Lqa.lra. }
    rewrite Hslow. cbn [orb length Nat.add].
    replace (frameCountRef st + Z.of_nat (S T)) with (frameCountRef st + 1 + Z.of_nat T) by lia.
    unfold count_calls.
    destruct (Z.eqb_spec (Z.rem (frameCountRef st + 1) 10) 0) as [Hz | Hnz];
      rewrite Z.rem_mod_nonneg in * by lia.
    + rewrite filter_cons, filter_nil.
      destruct (decide (CallAnalyzeDomains = CallAnalyzeDomains)); [|done].
      cbn [length]. Z.div_mod_to_equations. lia.
    + rewrite filter_nil. cbn [length]. Z.div_mod_to_equations. lia.
Qed.

End Exact.

End AppFacts.

(** ** Concrete runs *)

Module Runs.
Import IsingCore App.

(** C2, on binary64.  Running at speedFactor 0.1 from accumulator 0, ten
    frames execute no sweep at all: the ten additions leave the accumulator
    just below 1.  Yet f·T, for the double f nearest 0.1, is above 1; so
    floor(f·T) = 1 and the sweep count is off by at least 1.  The eleventh
    frame executes the sweep. *)
Lemma throughput_binary64 :
  let f := speedRef example_state_float in
  let after10 := ticks stub_exp stub_rnd 10 example_state_float in
  let after11 := ticks stub_exp stub_rnd 11 example_state_float in
  (0 < float_toQ f)%Q ∧
  count_calls CallPerformMCS <$> after10 = Some 0%nat ∧
  accumulatorRef <$> after10 = Some 0x1.fffffffffffffp-1%float ∧
  Qfloor (float_toQ f * inject_Z 10) = 1 ∧
  ¬ (Qabs (inject_Z 0 - float_toQ f * inject_Z 10) < 1)%Q ∧
  count_calls CallPerformMCS <$> after11 = Some 1%nat.
Proof.
  cbv zeta. split; [reflexivity|]. split; [vm_compute; reflexivity|].
  split; [vm_compute; reflexivity|]. split; [vm_compute; reflexivity|].
  split; [|vm_compute; reflexivity].
  intros Hlt. vm_compute in Hlt. discriminate Hlt.
Qed.

(** The scheduler at speedFactor 0.25 on binary64, where every sum is
    exact: frames 1 to 3 execute no sweep (accumulator 0.25, 0.5, 0.75),
    frame 4 executes one and leaves the accumulator at 0. *)
Lemma scheduler_quarter_binary64 :
  let run n := ticks stub_exp stub_rnd n example_state_quarter in
  (fun st => (count_calls CallPerformMCS st, accumulatorRef st)) <$> run 1%nat
    = Some (0%nat, 0.25%float) ∧
  (fun st => (count_calls CallPerformMCS st, accumulatorRef st)) <$> run 2%nat
    = Some (0%nat, 0.5%float) ∧
  (fun st => (count_calls CallPerformMCS st, accumulatorRef st)) <$> run 3%nat
    = Some (0%nat, 0.75%float) ∧
  (fun st => (count_calls CallPerformMCS st, accumulatorRef st)) <$> run 4%nat
    = Some (1%nat, 0%float).
Proof. cbv zeta. repeat split; vm_compute; reflexivity. Qed.

(** C6, reset.  On the example state, reset makes no [performMCS] call and
    no [analyzeDomains] call. *)
Lemma reset_runs_nothing :
  ¬ one_sweep_one_analysis example_state (handleReset (fun _ => 0%Q) example_state).
Proof. intros [Hs _]. vm_compute in Hs. discriminate Hs. Qed.

(** The all-up lattice of side 2, used in the runs below. *)
Lemma all_up_lattice : lattice 2 [1; 1; 1; 1].
Proof. split; [reflexivity|]. repeat constructor. Defined.

Lemma energy_delta_domain_run :
  exists s ns d,
    get [1; 1; 1; 1] 2 = Some s ∧ neighborSum [1; 1; 1; 1] 2 2 = Some ns ∧
    deltaE [1; 1; 1; 1] 2 2 = Some d ∧ d = 2 * s * ns ∧ dE_domain d ∧
    (0 < d -> (d = 4 ∨ d = 8) ∧
              is_Some (table_get (expTable (fun x : Q => x) 1%Q) d)).
Proof.
  apply (MetropolisFacts.energy_delta_domain (fun x : Q => x) [1; 1; 1; 1] 2 2 1%Q);
    [lia | exact all_up_lattice | lia].
Defined.

Lemma metropolis_rule_run :
  let rnd : Rng Q := fun _ => (1 # 2)%Q in
  let table := expTable (fun x : Q => x) 1%Q in
  let grid' := (attempt rnd 2 table ([1; 1; 1; 1], 0%nat)).1 in
  (8 ≤ 0 -> grid' = put [1; 1; 1; 1] 2 (- 1)) ∧
  (0 < 8 ->
     exists p, table_get table 8 = Some p ∧
               p = n_div (n_neg (n_ofZ 8)) 1%Q ∧
               (n_lt (1 # 2)%Q p = true -> grid' = put [1; 1; 1; 1] 2 (- 1)) ∧
               (n_lt (1 # 2)%Q p = false -> grid' = [1; 1; 1; 1])).
Proof.
  exact (MetropolisFacts.metropolis_rule (fun x : Q => x) (fun _ => (1 # 2)%Q)
           [1; 1; 1; 1] 2 1%Q 0 0 1 8 (proj2 all_up_lattice) eq_refl eq_refl).
Defined.

Lemma reachable_lattice_run :
  lattice 2 (createGrid (fun _ : nat => (3 # 4)%Q) 2 0).1.
Proof.
  apply (MetropolisFacts.reachable_lattice (fun x : Q => x) (fun _ => (3 # 4)%Q) 2).
  apply reach_create.
Defined.

Lemma domain_partition_run :
  exists dist,
    analyzeDomains [1; -1; 1; 1] 2 = Some (dist, [1; -1; 1; 1]) ∧ cells_counted dist = 2 * 2.
Proof.
  apply (DomainFacts.domain_partition [1; -1; 1; 1] 2); [lia | reflexivity].
Defined.

Lemma analysis_terminates_run :
  exists dist,
    analyzeDomains_fuel 5 [1; -1; 1; 1] 2 = Some (dist, [1; -1; 1; 1], (5 - Z.to_nat (2 * 2))%nat).
Proof.
  apply (DomainFacts.analysis_terminates [1; -1; 1; 1] 2 5); [lia | reflexivity | simpl; lia].
Defined.

Lemma analysis_pure_run :
  [1; -1; 1; 1] = [1; -1; 1; 1] ∧
  analyzeDomains [1; -1; 1; 1] 2 = Some ([(1, 1); (3, 1)], [1; -1; 1; 1]).
Proof.
  apply (DomainFacts.analysis_pure [1; -1; 1; 1] [1; -1; 1; 1] 2 [(1, 1); (3, 1)]).
  reflexivity.
Defined.

(** A frame that executes a sweep: accumulator 3/4, speed 1/4, the tenth
    sweep-executing frame since the reset. *)
Lemma throttle_policy_run :
  let st := mkState 2 true [1; 1; 1; 1] [1; 1; 1; 1] [] 1%Q (1 # 4)%Q (3 # 4)%Q 9 0 [] in
  exists st',
    loop (fun x : Q => x) (fun _ => (1 # 2)%Q) st = Some st' ∧
    frameCountRef st' = frameCountRef st + 1 ∧
    (n_lt (speedRef st) (n_ofZ 1) = true ∨ Z.rem (frameCountRef st') 10 = 0 ->
       count_calls CallAnalyzeDomains st' = S (count_calls CallAnalyzeDomains st)) ∧
    (¬ (n_lt (speedRef st) (n_ofZ 1) = true ∨ Z.rem (frameCountRef st') 10 = 0) ->
       count_calls CallAnalyzeDomains st' = count_calls CallAnalyzeDomains st).
Proof.
  apply (AppFacts.throttle_policy (fun x : Q => x) (fun _ => (1 # 2)%Q)
           (mkState 2 true [1; 1; 1; 1] [1; 1; 1; 1] [] 1%Q (1 # 4)%Q (3 # 4)%Q 9 0 []));
    [reflexivity | vm_compute; reflexivity].
Defined.

(** Four frames at speed 1/4 from accumulator 0. *)
Lemma throughput_exact_run :
  exists st',
    ticks (fun x : Q => x) (fun _ => (1 # 2)%Q) 4 example_state = Some st' ∧
    let sweeps := Z.of_nat (count_calls CallPerformMCS st')
                  - Z.of_nat (count_calls CallPerformMCS example_state) in
    sweeps = Qfloor ((1 # 4) * inject_Z (Z.of_nat 4)) ∧
    (Qabs (inject_Z sweeps - (1 # 4) * inject_Z (Z.of_nat 4)) < 1)%Q ∧
    (0 <= accumulatorRef st')%Q ∧ (accumulatorRef st' < 1)%Q.
Proof.
  apply (AppFacts.throughput_exact (fun x : Q => x) (fun _ => (1 # 2)%Q)
           example_state (1 # 4)%Q 4);
    [reflexivity | reflexivity | reflexivity | reflexivity].
Defined.

End Runs.


(** ** The histogram of cluster sizes *)

Module HistogramFacts.
Import IsingCore.

Lemma tally_keys s d k : k ∈ (tally s d).*1 -> k = s ∨ k ∈ d.*1.
Proof.
  induction d as [|[k' n] d IH]; simpl.
  - intros Hk. apply list_elem_of_singleton in Hk. by left.
  - destruct (Z.eqb_spec s k') as [-> | Hne]; [|destruct (s <? k')]; simpl; intros Hk.
    + by right.
    + apply elem_of_cons in Hk as [-> | Hk]; [by left | by right].
    + apply elem_of_cons in Hk as [-> | Hk]; [right; by left|].
      destruct (IH Hk) as [-> | Hin]; [by left | right; by right].
Qed.

Lemma tally_ascending s d : ascending d -> ascending (tally s d).
Proof.
  unfold ascending. induction d as [|[k n] d IH]; simpl; intros Hd.
  - repeat constructor.
  - apply StronglySorted_inv in Hd as [Hd Hk].
    destruct (Z.eqb_spec s k) as [-> | Hne]; [|destruct (Z.ltb_spec s k)]; simpl.
    + by constructor.
    + constructor; [by constructor|]. constructor; [done|].
      eapply Forall_impl; [exact Hk|]. simpl. lia.
    + constructor; [by apply IH|].
      apply Forall_forall. intros k' Hk'. apply tally_keys in Hk' as [-> | Hin]; [lia|].
      by apply (proj1 (Forall_forall _ _) Hk).
Qed.

Lemma foldl_tally_ascending sizes : forall d,
  ascending d -> ascending (foldl (fun d s => tally s d) d sizes).
Proof.
  induction sizes as [|s sizes IH]; intros d Hd; simpl; [done|].
  by apply IH, tally_ascending.
Qed.

(** On pairs already in ascending order the final [sort] moves nothing. *)
Lemma sort_insert_last e acc :
  Forall (fun k => k < e.1) acc.*1 -> sort_insert e acc = acc ++ [e].
Proof.
  induction acc as [|e' acc IH]; simpl; intros Hlt; [done|].
  apply Forall_cons in Hlt as [He' Hlt].
  destruct (Z.leb_spec (e'.1 - e.1) 0); [|lia]. by rewrite IH.
Qed.

Lemma sort_ascending l : ascending l -> sort_by_size l = l.
Proof.
  unfold sort_by_size.
  assert (Hgen : forall acc, ascending (acc ++ l) ->
            foldl (fun acc e => sort_insert e acc) acc l = acc ++ l).
  { induction l as [|e l IH]; intros acc Hs; simpl; [by rewrite app_nil_r|].
    rewrite sort_insert_last.
    - rewrite IH; rewrite <- app_assoc; done.
    - unfold ascending in Hs. rewrite fmap_app in Hs. simpl in Hs.
      clear -Hs. induction acc as [|a acc IHa]; simpl in *; [done|].
      apply StronglySorted_inv in Hs as [Hs Ha]. constructor; [|by apply IHa].
      apply Forall_app in Ha as [_ Ha]. by apply Forall_cons in Ha as [Ha _]. }
  intros Hl. by rewrite (Hgen [] Hl).
Qed.

Lemma entry_absent d k : k ∉ d.*1 -> entry d k = 0.
Proof.
  induction d as [|[k' n] d IH]; simpl; [done|]. intros Hk.
  apply not_elem_of_cons in Hk as [Hne Hk].
  destruct (Z.eqb_spec k' k); [congruence | by apply IH].
Qed.

Lemma entry_tally s d k :
  ascending d ->
  entry (tally s d) k = entry d k + (if decide (k = s) then 1 else 0).
Proof.
  unfold ascending. induction d as [|[k' n] d IH]; simpl; intros Hd.
  - destruct (Z.eqb_spec s k), (decide (k = s)); try lia; congruence.
  - apply StronglySorted_inv in Hd as [Hd Hk].
    destruct (Z.eqb_spec s k') as [-> | Hne]; [|destruct (Z.ltb_spec s k')]; simpl.
    + destruct (Z.eqb_spec k' k) as [-> | Hne'].
      * rewrite decide_True by done. destruct (Z.eqb_spec n 0); lia.
      * rewrite decide_False by congruence. lia.
    + destruct (Z.eqb_spec s k) as [-> | Hne'].
      * rewrite decide_True by done. destruct (Z.eqb_spec k' k); [lia|].
        rewrite entry_absent; [lia|]. intros Hin.
        pose proof (proj1 (Forall_forall _ _) Hk _ Hin). simpl in *. lia.
      * rewrite decide_False by congruence. lia.
    + destruct (Z.eqb_spec k' k) as [-> | Hne'].
      * rewrite decide_False by lia. lia.
      * by apply IH.
Qed.

Lemma entry_foldl_tally sizes : forall d k,
  ascending d ->
  entry (foldl (fun d s => tally s d) d sizes) k = entry d k + Z.of_nat (occurrences k sizes).
Proof.
  induction sizes as [|s sizes IH]; intros d k Hd; simpl.
  - unfold occurrences. simpl. lia.
  - rewrite IH by by apply tally_ascending. rewrite entry_tally by done.
    unfold occurrences. rewrite filter_cons.
    destruct (decide (k = s)) as [-> | Hne].
    + rewrite decide_True by done. simpl. lia.
    + rewrite decide_False by congruence. lia.
Qed.

(** An entry exists exactly for the keys listed, and the value is the entry. *)
Lemma entry_elem d k n : ascending d -> (k, n) ∈ d <-> k ∈ d.*1 ∧ entry d k = n.
Proof.
  unfold ascending. induction d as [|[k' n'] d IH]; simpl; intros Hd.
  - split; [intros Hin; by apply elem_of_nil in Hin | intros [Hin _]; by apply elem_of_nil in Hin].
  - apply StronglySorted_inv in Hd as [Hd Hk]. rewrite !elem_of_cons, (IH Hd).
    destruct (Z.eqb_spec k' k) as [-> | Hne].
    + split.
      * intros [[= <-] | [Hin _]]; [by split; [left|]|].
        pose proof (proj1 (Forall_forall _ _) Hk _ Hin). lia.
      * intros [_ <-]. by left.
    + split.
      * intros [[= ? ?] | [Hin He]]; [congruence|]. split; [by right | done].
      * intros [[? | Hin] He]; [congruence|]. right. by split.
Qed.

Lemma tally_keys_inv s d k : k = s ∨ k ∈ d.*1 -> k ∈ (tally s d).*1.
Proof.
  induction d as [|[k' n] d IH]; simpl.
  - set_solver.
  - destruct (Z.eqb_spec s k') as [-> | Hne]; [|destruct (s <? k')]; simpl; set_solver.
Qed.

Lemma foldl_tally_keys sizes : forall d k,
  k ∈ (foldl (fun d s => tally s d) d sizes).*1 <-> k ∈ sizes ∨ k ∈ d.*1.
Proof.
  induction sizes as [|s sizes IH]; intros d k; simpl.
  - set_solver.
  - rewrite IH, elem_of_cons. split.
    + intros [Hin | Hin]; [left; by right|].
      apply tally_keys in Hin as [-> | Hin]; [left; by left | by right].
    + intros [[-> | Hin] | Hin]; [right; apply tally_keys_inv; by left | by left |
                                   right; apply tally_keys_inv; by right].
Qed.

Lemma occurrences_pos k sizes : k ∈ sizes <-> (0 < occurrences k sizes)%nat.
Proof.
  unfold occurrences. induction sizes as [|s sizes IH]; simpl.
  - split; [intros Hin; by apply elem_of_nil in Hin | cbn; lia].
  - rewrite filter_cons, elem_of_cons. destruct (decide (s = k)) as [-> | Hne]; simpl.
    + split; [lia | by left].
    + rewrite <- IH. split; [intros [-> | Hin]; done | by right].
Qed.

(** The histogram step, as used by the lemmas on the analysis below. *)
Lemma histogram_spec (sizes : list Z) :
  ascending (histogram sizes) ∧
  histogram sizes = foldl (fun d s => tally s d) [] sizes ∧
  forall s n, (s, n) ∈ histogram sizes <->
              (0 < occurrences s sizes)%nat ∧ n = Z.of_nat (occurrences s sizes).
Proof.
  assert (Hasc : ascending (foldl (fun d s => tally s d) [] sizes)).
  { apply foldl_tally_ascending. constructor. }
  assert (Heq : histogram sizes = foldl (fun d s => tally s d) [] sizes).
  { unfold histogram. by apply sort_ascending. }
  rewrite Heq. split; [done|]. split; [done|]. intros s n.
  rewrite (entry_elem _ _ _ Hasc), foldl_tally_keys, entry_foldl_tally by constructor.
  rewrite <- occurrences_pos. simpl. split.
  - intros [[Hin | Hin] <-]; [split; [done | lia] | by apply elem_of_nil in Hin].
  - intros [Hin ->]. split; [by left | lia].
Qed.


(** X5.  The histogram step lists the sizes by strictly increasing size, holds
    a pair for exactly the sizes that occur, and pairs each with the number
    of clusters of that size; the final sort leaves the order that
    [Object.entries] gave. *)
Theorem histogram_correct (sizes : list Z) :
  ascending (histogram sizes) ∧
  histogram sizes = foldl (fun d s => tally s d) [] sizes ∧
  forall s n, (s, n) ∈ histogram sizes <->
              (0 < occurrences s sizes)%nat ∧ n = Z.of_nat (occurrences s sizes).
Proof. exact (histogram_spec sizes). Qed.

End HistogramFacts.

(** ** The domains counted are the connected sets of equal spins *)

Module ComponentFacts.
Import IsingCore HistogramFacts DomainFacts.

Lemma wrap_succ N x : 0 ≤ x < N -> Z.rem (x + 1) N = if x + 1 =? N then 0 else x + 1.
Proof.
  intros Hx. rewrite Z.rem_mod_nonneg by lia.
  destruct (Z.eqb_spec (x + 1) N) as [-> | Hne].
  - apply Z_mod_same_full.
  - apply Z.mod_small. lia.
Qed.

Lemma wrap_pred N x : 0 ≤ x < N -> Z.rem (x - 1 + N) N = if x =? 0 then N - 1 else x - 1.
Proof.
  intros Hx. rewrite Z.rem_mod_nonneg by lia.
  destruct (Z.eqb_spec x 0) as [-> | Hne].
  - replace (0 - 1 + N) with (N - 1) by lia. apply Z.mod_small. lia.
  - replace (x - 1 + N) with (x - 1 + 1 * N) by lia. rewrite Z_mod_plus_full.
    apply Z.mod_small. lia.
Qed.

Lemma coords_getIdx N x y :
  0 ≤ x < N -> 0 ≤ y < N -> Z.rem (getIdx N x y) N = x ∧ getIdx N x y / N = y.
Proof.
  intros Hx Hy. unfold getIdx. rewrite Z.rem_mod_nonneg by nia. split.
  - rewrite Z.add_comm, Z_mod_plus_full. apply Z.mod_small. lia.
  - rewrite Z.add_comm, Z_div_plus_full by lia. rewrite Z.div_small by lia. lia.
Qed.

(** The four neighbours of a site, by their coordinates. *)
Lemma nbr_coords N i j :
  0 < N -> site N i ->
  nbr N i j <->
  exists x y, 0 ≤ x < N ∧ 0 ≤ y < N ∧ j = getIdx N x y ∧
    ((y = i / N ∧ (x = Z.rem (Z.rem i N + 1) N ∨ x = Z.rem (Z.rem i N - 1 + N) N)) ∨
     (x = Z.rem i N ∧ (y = Z.rem (i / N + 1) N ∨ y = Z.rem (i / N - 1 + N) N))).
Proof.
  intros HN Hi. destruct (site_coords N i HN Hi) as [Hx Hy].
  pose proof (wrap_in_range N (Z.rem i N + 1) HN ltac:(lia)).
  pose proof (wrap_in_range N (Z.rem i N - 1 + N) HN ltac:(lia)).
  pose proof (wrap_in_range N (i / N + 1) HN ltac:(lia)).
  pose proof (wrap_in_range N (i / N - 1 + N) HN ltac:(lia)).
  unfold nbr, neighbors. simpl. rewrite !elem_of_cons, elem_of_nil. split.
  - intros [-> | [-> | [-> | [-> | []]]]]; eexists _, _;
      (split; [|split; [|split; [reflexivity|]]]);
      try done; tauto.
  - intros (x & y & _ & _ & -> & [[-> [-> | ->]] | [-> [-> | ->]]]); tauto.
Qed.

Lemma nbr_site N i j : 0 < N -> site N i -> nbr N i j -> site N j.
Proof.
  intros HN Hi Hn. apply (nbr_coords N i j HN Hi) in Hn as (x & y & Hx & Hy & -> & _).
  unfold site, getIdx. by apply cell_in_range.
Qed.

Lemma nbr_sym N i j : 0 < N -> site N i -> nbr N i j -> nbr N j i.
Proof.
  intros HN Hi Hn. pose proof (nbr_site N i j HN Hi Hn) as Hj.
  destruct (site_coords N i HN Hi) as [Hx Hy].
  apply (nbr_coords N i j HN Hi) in Hn as (x & y & Hx' & Hy' & -> & Hc).
  apply (nbr_coords N _ i HN Hj).
  destruct (coords_getIdx N x y Hx' Hy') as [-> ->].
  exists (Z.rem i N), (i / N). split; [done|]. split; [done|].
  split; [by apply site_of_coords; unfold site in Hi; lia|].
  rewrite (wrap_succ N x), (wrap_pred N x), (wrap_succ N y), (wrap_pred N y) by done.
  rewrite (wrap_succ N (Z.rem i N)), (wrap_pred N (Z.rem i N)),
    (wrap_succ N (i / N)), (wrap_pred N (i / N)) in Hc by done.
  repeat match goal with
         | |- context [?a =? ?b] => destruct (Z.eqb_spec a b)
         | H : context [?a =? ?b] |- _ => destruct (Z.eqb_spec a b)
         end; lia.
Qed.

Lemma link_sym grid N i j : 0 < N -> link grid N i j -> link grid N j i.
Proof.
  intros HN (Hi & Hn & Hs). split; [by eapply nbr_site|]. split; [by apply nbr_sym | done].
Qed.

Lemma connected_spin grid N i j : connected grid N i j -> get grid j = get grid i.
Proof. induction 1 as [|i k j (_ & _ & Hs) _ IH]; [done | congruence]. Qed.

Lemma connected_site grid N i j : 0 < N -> site N i -> connected grid N i j -> site N j.
Proof.
  intros HN Hi Hc. induction Hc as [|i k j (Hi' & Hn & _) _ IH]; [done|].
  apply IH. by eapply nbr_site.
Qed.

Lemma connected_sym grid N i j : 0 < N -> connected grid N i j -> connected grid N j i.
Proof.
  intros HN Hc. induction Hc as [|i k j Hl _ IH]; [constructor|].
  eapply rtc_r; [exact IH|]. by apply link_sym.
Qed.


Lemma marked_put (v : list Z) i j :
  marked (put v i 1) j <-> (i = j ∧ is_Some (get v i)) ∨ marked v j.
Proof.
  unfold marked. destruct (decide (i = j)) as [-> | Hne].
  - destruct (get v j) as [z|] eqn:Hz.
    + rewrite get_put_eq by eauto. split; [intros _; left; eauto | done].
    + rewrite put_None, Hz by done. split; [done | intros [[_ [? [=]]] | H]; done].
  - rewrite get_put_ne by done. split; [by right | intros [[? _] | H]; done].
Qed.

Lemma visit_inv grid N v0 start curr seen h n :
  0 < N -> site N curr -> connected grid N start curr ->
  nbr N curr (getIdx N n.1 n.2) ->
  visiting_inv grid N v0 start curr seen h ->
  visiting_inv grid N v0 start curr (getIdx N n.1 n.2 :: seen)
               (visit N (get grid start) h n).
Proof.
  intros HN Hcurr Hconn Hn (Hok & Hg & Hmono & Hsound & Hq & Hprog & Hseen).
  pose proof (nbr_site N curr _ HN Hcurr Hn) as Hsite.
  destruct (visit_spec N (get grid start) h n Hok Hsite) as (Hok' & _ & _).
  unfold visit in *. set (nIdx := getIdx N n.1 n.2) in *.
  destruct (negb (truthy (get (h_visited h) nIdx))
            && strict_eq (get (h_grid h) nIdx) (get grid start))
    eqn:Hc.
  - apply andb_prop in Hc as [Hu Heq]. apply negb_true_iff in Hu.
    unfold strict_eq in Heq. apply bool_decide_eq_true in Heq. rewrite Hg in Heq.
    assert (Hin : is_Some (get (h_visited h) nIdx)).
    { apply get_in_range. destruct Hok as [-> _]. unfold site in Hsite. lia. }
    assert (Hnew : connected grid N start nIdx).
    { eapply rtc_r; [exact Hconn|]. split; [done|]. split; [done|].
      rewrite Heq. symmetry. by apply (connected_spin grid N). }
    split; [done|]. split; [done|]. simpl.
    split; [intros i Hi; apply marked_put; right; by apply Hmono|].
    split.
    { intros i Hi. apply marked_put in Hi as [[<- _] | Hi]; [by right | by apply Hsound]. }
    split; [apply Forall_app; split; [done | constructor; [by split | constructor]]|].
    split.
    + intros i j Hi Hv0 Hnq Hne Hl. apply marked_put. right.
      apply not_elem_of_app in Hnq as [Hnq Hni].
      apply marked_put in Hi as [[<- _] | Hi]; [exfalso; apply Hni; by left|].
      by eapply Hprog.
    + intros j Hj Hs. apply marked_put. apply elem_of_cons in Hj as [-> | Hj].
      * left. by split.
      * right. by apply Hseen.
  - split; [done|]. split; [done|]. split; [done|]. split; [done|]. split; [done|].
    split; [done|]. intros j Hj Hs. apply elem_of_cons in Hj as [-> | Hj]; [|by apply Hseen].
    apply andb_false_iff in Hc as [Hu | Heq].
    + apply negb_false_iff in Hu. exact Hu.
    + unfold strict_eq in Heq. apply bool_decide_eq_false in Heq. exfalso. apply Heq.
      rewrite Hg, Hs. by apply (connected_spin grid N).
Qed.

Lemma foldl_visit_inv grid N v0 start curr ns : forall seen h,
  0 < N -> site N curr -> connected grid N start curr ->
  Forall (fun n => nbr N curr (getIdx N n.1 n.2)) ns ->
  visiting_inv grid N v0 start curr seen h ->
  visiting_inv grid N v0 start curr
    (reverse ((fun n : Z * Z => getIdx N n.1 n.2) <$> ns) ++ seen)
    (foldl (visit N (get grid start)) h ns).
Proof.
  induction ns as [|n ns IH]; intros seen h HN Hcurr Hconn Hns Hinv; simpl; [done|].
  apply Forall_cons in Hns as [Hn Hns].
  rewrite reverse_cons, <- app_assoc. simpl. apply IH; try done. by apply visit_inv.
Qed.

(** One pass of the loop body keeps the flood invariant. *)
Lemma flood_step_inv grid N v0 start h rest curr :
  0 < N -> pop (h_queue h) = Some (rest, curr) ->
  flood_inv grid N v0 start h ->
  flood_inv grid N v0 start
    (foldl (visit N (get grid start))
           (mkHeap (h_grid h) (h_visited h) rest (h_sizes h)) (neighbors N curr)).
Proof.
  intros HN Hpop (Hok & Hg & Hmono & Hsound & Hq & Hprog).
  apply pop_Some in Hpop. rewrite Hpop in Hq, Hprog.
  apply Forall_app in Hq as [Hrest Hcurr]. apply Forall_cons in Hcurr as [[Hsite Hconn] _].
  destruct Hok as [Hlen Hqok]. rewrite Hpop in Hqok. apply Forall_app in Hqok as [Hqrest _].
  assert (Hstart : visiting_inv grid N v0 start curr []
                     (mkHeap (h_grid h) (h_visited h) rest (h_sizes h))).
  { split; [by split|]. split; [done|]. split; [done|]. split; [done|]. split; [done|].
    split; simpl.
    - intros i j Hi Hv0 Hnq Hne Hl. eapply Hprog; try done.
      intros Hin. apply elem_of_app in Hin as [Hin | Hin]; [done|].
      by apply list_elem_of_singleton in Hin.
    - intros j Hj. by apply elem_of_nil in Hj. }
  assert (Hns : Forall (fun n => nbr N curr (getIdx N n.1 n.2)) (neighbors N curr)).
  { apply Forall_forall. intros n Hn. unfold nbr. apply list_elem_of_fmap. eauto. }
  destruct (foldl_visit_inv grid N v0 start curr (neighbors N curr) [] _
              HN Hsite Hconn Hns Hstart)
    as (Hok' & Hg' & Hmono' & Hsound' & Hq' & Hprog' & Hseen').
  split; [done|]. split; [done|]. split; [done|]. split; [done|]. split; [done|].
  intros i j Hi Hv0 Hnq Hl. destruct (decide (i = curr)) as [-> | Hne].
  - destruct Hl as (_ & Hn & Hs). apply Hseen'; [|done].
    rewrite app_nil_r. apply elem_of_reverse. exact Hn.
  - by eapply Hprog'.
Qed.

(** When the loop ends the invariant holds and the queue is empty. *)
Lemma flood_inv_end grid N v0 start fuel : forall h size h' size' fuel',
  0 < N ->
  flood fuel N (get grid start) h size = Some (h', size', fuel') ->
  flood_inv grid N v0 start h ->
  flood_inv grid N v0 start h' ∧ h_queue h' = [].
Proof.
  induction fuel as [|fuel IH]; intros h size h' size' fuel' HN Hrun Hinv.
  - simpl in Hrun. destruct (pop (h_queue h)) as [[rest curr]|] eqn:Hpop; [done|].
    injection Hrun as <- <- <-. split; [done | by apply pop_None].
  - rewrite flood_S in Hrun. destruct (pop (h_queue h)) as [[rest curr]|] eqn:Hpop.
    + eapply IH; [done | exact Hrun |]. by apply flood_step_inv.
    + injection Hrun as <- <- <-. split; [done | by apply pop_None].
Qed.


Lemma zeros_app v w : zeros (v ++ w) = (zeros v + zeros w)%nat.
Proof. induction v as [|z v IH]; simpl; [done|]. rewrite IH. by destruct (z =? 0). Qed.

Lemma filter_ext_in {A} (P Q : A -> Prop) `{!forall x, Decision (P x)}
    `{!forall x, Decision (Q x)} (l : list A) :
  (forall x, x ∈ l -> (P x <-> Q x)) -> filter P l = filter Q l.
Proof.
  induction l as [|x l IH]; intros Hext; [done|].
  rewrite !filter_cons. rewrite IH by (intros y Hy; apply Hext; by right).
  destruct (decide (P x)) as [HP | HP], (decide (Q x)) as [HQ | HQ]; try done;
    exfalso; apply (Hext x) in HP || apply (Hext x) in HQ; try done; by left.
Qed.

Lemma filter_split {A} (P Q : A -> Prop) `{!forall x, Decision (P x)}
    `{!forall x, Decision (Q x)} (l : list A) :
  length (filter P l) =
  (length (filter (fun x => Q x ∧ P x) l) + length (filter (fun x => P x ∧ ¬ Q x) l))%nat.
Proof.
  induction l as [|x l IH]; [done|]. rewrite !filter_cons.
  destruct (decide (P x)), (decide (Q x));
    repeat (destruct (decide _) as [?|?]; try tauto); simpl; lia.
Qed.

(** [zeros] counts the unmarked indices. *)
Lemma zeros_unmarked v :
  zeros v = length (filter (fun i => ¬ marked v i) (seqZ 0 (Z.of_nat (length v)))).
Proof.
  induction v as [|z v IH] using rev_ind; [done|].
  rewrite zeros_app, length_app. simpl length.
  replace (length v + 1)%nat with (S (length v)) by lia.
  rewrite seqZ_S, filter_app, length_app, IH. f_equal.
  - f_equal. apply filter_ext_in. intros i Hi. apply elem_of_seqZ in Hi.
    unfold marked, get. destruct (Z.ltb_spec i 0); [lia|].
    rewrite lookup_app_l by lia. done.
  - assert (Hm : marked (v ++ [z]) (Z.of_nat (length v)) <-> z ≠ 0).
    { unfold marked, get. destruct (Z.ltb_spec (Z.of_nat (length v)) 0); [lia|].
      rewrite Nat2Z.id, list_lookup_middle by done. simpl.
      destruct (Z.eqb_spec z 0); simpl; split; done. }
    rewrite filter_cons, filter_nil, Z.add_0_l. simpl.
    destruct (decide (¬ marked (v ++ [z]) (Z.of_nat (length v)))) as [Hd | Hd],
      (Z.eqb_spec z 0) as [Hz | Hz]; simpl; try done; exfalso; tauto.
Qed.

Lemma marked_in_range v i : marked v i -> 0 ≤ i < Z.of_nat (length v).
Proof.
  unfold marked. destruct (get v i) as [z|] eqn:Hz; [|done]. intros _.
  by apply get_Some_range in Hz.
Qed.

(** The cells marked since [v] are as many as the zeros that went. *)
Lemma fresh_length N v v' :
  length v = Z.to_nat (N * N) -> length v' = Z.to_nat (N * N) ->
  (forall i, marked v i -> marked v' i) ->
  (length (fresh N v v') + zeros v')%nat = zeros v.
Proof.
  intros Hv Hv' Hmono. rewrite (zeros_unmarked v), (zeros_unmarked v'), Hv, Hv'.
  rewrite Z2Nat.id by nia. unfold fresh.
  rewrite (filter_split (fun i => ¬ marked v i) (fun i => marked v' i)). f_equal.
  f_equal. apply list_filter_iff. intros i. split; [|tauto].
  intros Hn. split; [|done]. intros Hm. apply Hn. by apply Hmono.
Qed.

(** The size the loop returns: the cells it found pending, less those left unmarked. *)
Lemma flood_count N spinType fuel : forall h size h' size' fuel',
  0 < N -> heap_ok N h ->
  flood fuel N spinType h size = Some (h', size', fuel') ->
  heap_ok N h' ∧ heap_ext h h' ∧
  size' + Z.of_nat (zeros (h_visited h')) = size + Z.of_nat (pending h).
Proof.
  induction fuel as [|fuel IH]; intros h size h' size' fuel' HN Hok Hrun.
  - simpl in Hrun. destruct (pop (h_queue h)) as [[rest curr]|] eqn:Hpop; [done|].
    injection Hrun as <- <- <-. apply pop_None in Hpop. split; [done|].
    split; [apply heap_ext_refl|]. unfold pending. rewrite Hpop. simpl. lia.
  - rewrite flood_S in Hrun. destruct (pop (h_queue h)) as [[rest curr]|] eqn:Hpop.
    + apply pop_Some in Hpop. destruct Hok as [Hlen Hq].
      rewrite Hpop in Hq. apply Forall_app in Hq as [Hrest Hcurr].
      apply Forall_cons in Hcurr as [Hsite _].
      set (h1 := mkHeap (h_grid h) (h_visited h) rest (h_sizes h)) in *.
      assert (Hok1 : heap_ok N h1) by (split; done).
      destruct (foldl_visit_spec N spinType (neighbors N curr) h1 Hok1
                  (neighbors_site N curr HN Hsite)) as (Hok2 & Hext2 & Hp2).
      destruct (IH _ _ _ _ _ HN Hok2 Hrun) as (Hok' & Hext' & Hcount). split; [done|].
      split.
      { eapply heap_ext_trans; [|exact Hext']. eapply heap_ext_trans; [|exact Hext2].
        by repeat split. }
      rewrite Hcount, Hp2. unfold pending, h1. simpl. rewrite Hpop, length_app. simpl. lia.
    + injection Hrun as <- <- <-. apply pop_None in Hpop. split; [done|].
      split; [apply heap_ext_refl|]. unfold pending. rewrite Hpop. simpl. lia.
Qed.

Lemma flood_inv_init grid N v0 x y h :
  0 < N -> 0 ≤ x < N -> 0 ≤ y < N -> heap_ok N h -> h_grid h = grid ->
  (forall i, marked v0 i -> marked (h_visited h) i) ->
  (forall i, marked (h_visited h) i -> marked v0 i ∨ i = getIdx N x y) ->
  flood_inv grid N v0 (getIdx N x y)
    (mkHeap (h_grid h) (put (h_visited h) (getIdx N x y) 1) [getIdx N x y] (h_sizes h)).
Proof.
  intros HN Hx Hy [Hlen _] Hg Hmono Hsound.
  pose proof (cell_in_range N x y HN Hx Hy) as Hsite. fold (getIdx N x y) in Hsite.
  split; [split; simpl; [by rewrite length_put | constructor; [exact Hsite | constructor]]|].
  split; [done|]. simpl. split; [intros i Hi; apply marked_put; right; by apply Hmono|].
  split.
  { intros i Hi. apply marked_put in Hi as [[<- _] | Hi]; [right; constructor|].
    destruct (Hsound i Hi) as [Hv | ->]; [by left | right; constructor]. }
  split; [constructor; [split; [exact Hsite | constructor] | constructor]|].
  intros i j Hi Hv0 Hnq Hl. exfalso.
  apply marked_put in Hi as [[<- _] | Hi].
  - apply Hnq. by left.
  - destruct (Hsound i Hi) as [Hv | ->]; [done|]. apply Hnq. by left.
Qed.

(** One flood marks exactly the domain of its start cell and records its
    number of cells; the marked cells again form whole domains. *)
Lemma cell_domain N x y h fuel h' fuel' :
  0 < N -> 0 ≤ x < N -> 0 ≤ y < N -> heap_ok N h ->
  closed (h_grid h) N (h_visited h) ->
  ¬ marked (h_visited h) (getIdx N x y) ->
  cell N y x (h, fuel) = Some (h', fuel') ->
  heap_ok N h' ∧ h_grid h' = h_grid h ∧
  (forall i, marked (h_visited h') i <->
             marked (h_visited h) i ∨ connected (h_grid h) N (getIdx N x y) i) ∧
  (forall i, i ∈ fresh N (h_visited h) (h_visited h') <->
             connected (h_grid h) N (getIdx N x y) i) ∧
  closed (h_grid h) N (h_visited h') ∧
  h_sizes h' = h_sizes h ++ [Z.of_nat (length (fresh N (h_visited h) (h_visited h')))].
Proof.
  intros HN Hx Hy Hok Hclosed Hun Hrun.
  pose proof (cell_in_range N x y HN Hx Hy) as Hsite. fold (getIdx N x y) in Hsite.
  destruct Hok as [Hlen Hqok].
  set (start := getIdx N x y) in *. set (grid := h_grid h) in *.
  set (v0 := h_visited h) in *.
  assert (Hin : is_Some (get v0 start)).
  { apply get_in_range. rewrite Hlen. unfold site in Hsite. lia. }
  unfold cell in Hrun. fold start v0 in Hrun.
  destruct (truthy (get v0 start)) eqn:Ht; [by exfalso; apply Hun|].
  set (h1 := mkHeap (h_grid h) (put v0 start 1) [start] (h_sizes h)) in *.
  destruct (flood fuel N (get (h_grid h) start) h1 0) as [[[h2 size] fuel2]|] eqn:Hflood;
    [|done].
  simpl in Hrun. injection Hrun as <- <-. simpl.
  assert (Hinv0 : flood_inv grid N v0 start h1).
  { apply (flood_inv_init grid N v0 x y h); try done. intros i Hi. by left. }
  destruct (flood_inv_end grid N v0 start fuel h1 0 h2 size fuel2 HN Hflood Hinv0)
    as [(Hok2 & Hg2 & Hmono & Hsound & _ & Hprog) Hq2].
  destruct (flood_count N _ fuel h1 0 h2 size fuel2 HN (proj1 Hinv0) Hflood)
    as (_ & (_ & Hs2 & Hmono1) & Hcount).
  rewrite Hq2 in Hprog.
  assert (Hstart : marked (h_visited h2) start).
  { apply Hmono1. simpl. by rewrite get_put_eq. }
  assert (Hcomplete : forall i, connected grid N start i ->
                        marked (h_visited h2) i ∧ ¬ marked v0 i).
  { apply (rtc_ind_r (fun i => marked (h_visited h2) i ∧ ¬ marked v0 i)); [done|].
    intros i j Hc Hl [IHm IHn]. split.
    - eapply Hprog; try done. intros Hin'. by apply elem_of_nil in Hin'.
    - intros Hj. apply IHn. eapply Hclosed; [exact Hj|]. by apply link_sym. }
  assert (Hiff : forall i, marked (h_visited h2) i <-> marked v0 i ∨ connected grid N start i).
  { intros i. split; [apply Hsound|]. intros [Hv | Hc]; [by apply Hmono | by apply Hcomplete]. }
  assert (Hfresh : forall i, i ∈ fresh N v0 (h_visited h2) <-> connected grid N start i).
  { intros i. unfold fresh. rewrite list_elem_of_filter, elem_of_seqZ. split.
    - intros [[Hm Hn] _]. destruct (Hsound i Hm); done.
    - intros Hc. split; [by apply Hcomplete|].
      pose proof (connected_site grid N start i HN Hsite Hc) as Hs. unfold site in Hs. lia. }
  split; [split; simpl; [apply Hok2 | by rewrite Hq2]|].
  split; [done|]. split; [done|]. split; [done|]. split.
  - intros i j Hi Hl. apply Hiff in Hi as [Hv | Hc].
    + apply Hmono. by eapply Hclosed.
    + apply Hcomplete. by eapply rtc_r.
  - assert (Hp1 : pending h1 = zeros v0).
    { unfold pending, h1, put. simpl. unfold site in Hsite.
      destruct (Z.ltb_spec start 0); [lia|]. apply zeros_mark.
      apply unmarked_lookup; [|done]. rewrite Hlen. lia. }
    pose proof (fresh_length N v0 (h_visited h2) Hlen (proj1 Hok2) Hmono) as Hfl.
    rewrite Hs2. simpl. do 2 f_equal. lia.
Qed.


(** The scan with a second invariant [Q] carried along. *)
Lemma scan_spec_ext N F grid0 (Q : Heap * nat -> Prop) st :
  0 < N -> (Z.to_nat (N * N) ≤ F)%nat ->
  scan_inv N F grid0 (fun _ => False) st -> Q st ->
  (forall D x y s s', 0 ≤ x < N -> 0 ≤ y < N ->
     scan_inv N F grid0 D s -> Q s -> cell N y x s = Some s' -> Q s') ->
  exists st', scan N st = Some st' ∧ scan_inv N F grid0 (site N) st' ∧ Q st'.
Proof.
  intros HN HF Hst HQ Hstep. unfold scan.
  destruct (for_each_spec
    (fun p s => scan_inv N F grid0
                  (fun i => exists y x, y ∈ p ∧ 0 ≤ x < N ∧ i = getIdx N x y) s ∧ Q s)
    (fun y => for_each (seqZ 0 N) (fun x => cell N y x)) (seqZ 0 N) [] st)
    as (st' & Hrun & Hst' & HQ').
  - split; [|done]. eapply scan_inv_weaken; [|exact Hst].
    intros i (y & x & Hy & _). by apply elem_of_nil in Hy.
  - intros p y s [Hs HQs] Hy. apply elem_of_seqZ in Hy.
    destruct (for_each_spec
      (fun q s => scan_inv N F grid0
                  (fun i => (exists y' x, y' ∈ p ∧ 0 ≤ x < N ∧ i = getIdx N x y') ∨
                            exists x, x ∈ q ∧ i = getIdx N x y) s ∧ Q s)
      (fun x => cell N y x) (seqZ 0 N) [] s) as (s' & Hrun & Hs' & HQs').
    + split; [|done]. eapply scan_inv_weaken; [|exact Hs].
      intros i [Hi | (x & Hx & _)]; [done|]. by apply elem_of_nil in Hx.
    + intros q x s0 [Hs0 HQ0] Hx. apply elem_of_seqZ in Hx.
      destruct (cell_spec N F grid0 _ x y s0 HN HF ltac:(lia) ltac:(lia) Hs0)
        as (s1 & Hc & Hs1).
      exists s1. split; [done|]. split.
      * eapply scan_inv_weaken; [|exact Hs1].
        intros i [Hi | (x' & Hx' & ->)]; [by left; left|].
        apply elem_of_app in Hx' as [Hx' | Hx'].
        -- left. right. eauto.
        -- apply list_elem_of_singleton in Hx' as ->. by right.
      * eapply (Hstep _ x y s0 s1); [lia | lia | exact Hs0 | done | done].
    + exists s'. split; [done|]. split; [|done]. eapply scan_inv_weaken; [|exact Hs'].
      intros i (y' & x & Hy' & Hx & ->).
      apply elem_of_app in Hy' as [Hy' | Hy'].
      * left. eauto.
      * apply list_elem_of_singleton in Hy' as ->. right. exists x. split; [|done].
        apply elem_of_seqZ. lia.
  - exists st'. split; [done|]. split; [|done]. eapply scan_inv_weaken; [|exact Hst'].
    intros i Hi. unfold site in Hi. exists (i / N), (Z.rem i N).
    destruct (site_coords N i HN Hi) as [Hx Hy].
    split; [apply elem_of_seqZ; lia|]. split; [done|]. apply site_of_coords; lia.
Qed.

Lemma unmarked_replicate n i : ¬ marked (replicate n 0) i.
Proof.
  unfold marked, get. destruct (i <? 0); [done|].
  destruct (replicate n 0 !! Z.to_nat i) as [z|] eqn:Hz; [|done].
  apply lookup_replicate in Hz as [-> _]. done.
Qed.

Lemma cell_domains_inv grid N F D x y s s' :
  0 < N -> 0 ≤ x < N -> 0 ≤ y < N ->
  scan_inv N F grid D s ->
  (exists comps, domains_inv grid N comps s.1) ->
  cell N y x s = Some s' ->
  exists comps, domains_inv grid N comps s'.1.
Proof.
  intros HN Hx Hy (Hok & _ & Hg & _) (comps & Hcl & Hsz & Hdom & Hnd & Hm) Hrun.
  destruct s as [h fuel], s' as [h' fuel']. cbn [fst] in *.
  destruct (truthy (get (h_visited h) (getIdx N x y))) eqn:Ht.
  - unfold cell in Hrun. cbv zeta in Hrun. rewrite Ht in Hrun. injection Hrun as <- <-.
    exists comps. exact (conj Hcl (conj Hsz (conj Hdom (conj Hnd Hm)))).
  - assert (Hun : ¬ marked (h_visited h) (getIdx N x y)) by (unfold marked; congruence).
    rewrite <- Hg in Hcl.
    destruct (cell_domain N x y h fuel h' fuel' HN Hx Hy Hok Hcl Hun Hrun)
      as (_ & _ & Hiff & Hfresh & Hcl' & Hsz').
    rewrite Hg in *.
    exists (comps ++ [fresh N (h_visited h) (h_visited h')]).
    split; [done|]. split; [by rewrite Hsz', Hsz, fmap_app|].
    split.
    { apply Forall_app. split; [done|]. constructor; [|constructor]. split.
      - apply NoDup_filter, NoDup_seqZ.
      - exists (getIdx N x y). split; [|done].
        unfold site. fold (getIdx N x y). apply cell_in_range; done. }
    rewrite concat_app. simpl. rewrite app_nil_r. split.
    { apply NoDup_app. split; [done|]. split; [|apply NoDup_filter, NoDup_seqZ].
      intros i Hi Hf. apply Hm in Hi. unfold fresh in Hf.
      apply list_elem_of_filter in Hf as [[_ Hn] _]. done. }
    intros i. rewrite Hiff, elem_of_app, Hm, Hfresh. done.
Qed.

(** The scan from the empty [visited] to the end: the floods found are
    domains, disjoint, and together hold every cell. *)
Lemma analyzeDomains_components (grid : list Z) (N : Z) :
  0 < N ->
  exists comps : list (list Z),
    analyzeDomains grid N
      = Some (histogram ((fun c => Z.of_nat (length c)) <$> comps), grid) ∧
    Forall (is_domain grid N) comps ∧
    NoDup (concat comps) ∧
    (forall i, i ∈ concat comps <-> site N i).
Proof.
  intros HN. unfold analyzeDomains, analyzeDomains_fuel.
  destruct (scan_spec_ext N (Z.to_nat (N * N)) grid
              (fun s => exists comps, domains_inv grid N comps s.1)
              (mkHeap grid (replicate (Z.to_nat (N * N)) 0) [] [], Z.to_nat (N * N))
              HN ltac:(lia) (scan_inv_init N _ grid ltac:(lia)))
    as ([h fuel'] & -> & Hinv & comps & Hcl & Hsz & Hdom & Hnd & Hm).
  - exists []. simpl. split; [|split; [done|split; [constructor|split; [constructor|]]]].
    + intros i j Hi. by apply unmarked_replicate in Hi.
    + intros i. split; [intros Hi; by apply unmarked_replicate in Hi |
                        intros Hi; by apply elem_of_nil in Hi].
  - intros D x y s s' Hx Hy Hs HQ Hc.
    exact (cell_domains_inv grid N _ D x y s s' HN Hx Hy Hs HQ Hc).
  - simpl in *. exists comps. destruct Hinv as ([Hlen _] & _ & Hg & _ & _ & Hall).
    simpl in *. split; [by rewrite Hsz, Hg|]. split; [done|]. split; [done|].
    intros i. rewrite <- Hm. split; [|apply Hall].
    intros Hi. apply marked_in_range in Hi. unfold site. rewrite Hlen in Hi. lia.
Qed.

(** X6.  The domains that [analyzeDomains] counts are the connected sets of
    equal spins: there are lists of cells, one per flood and disjoint, each
    listing exactly the cells joined to one cell by a chain of equal-spin
    toroidal neighbours, together holding every cell once, and the result
    is the histogram of their lengths. *)
Theorem domains_are_components (grid : list Z) (N : Z) :
  0 < N ->
  exists comps : list (list Z),
    analyzeDomains grid N
      = Some (histogram ((fun c => Z.of_nat (length c)) <$> comps), grid) ∧
    Forall (is_domain grid N) comps ∧
    NoDup (concat comps) ∧
    (forall i, i ∈ concat comps <-> site N i).
Proof. exact (analyzeDomains_components grid N). Qed.

Lemma concat_sites_length N (comps : list (list Z)) :
  NoDup (concat comps) -> (forall i, i ∈ concat comps <-> site N i) ->
  length (concat comps) = Z.to_nat (N * N).
Proof.
  intros Hnd Hall. rewrite <- (length_seqZ 0 (N * N)). apply Permutation_length.
  apply NoDup_Permutation; [done | apply NoDup_seqZ |].
  intros i. rewrite Hall, elem_of_seqZ. unfold site. lia.
Qed.

Lemma domain_nonempty grid N c : is_domain grid N c -> (1 ≤ length c)%nat.
Proof.
  intros (_ & r & _ & Hr). assert (Hin : r ∈ c) by (apply Hr; constructor).
  destruct c; [by apply elem_of_nil in Hin | simpl; lia].
Qed.

Lemma length_le_concat (comps : list (list Z)) c :
  c ∈ comps -> (length c ≤ length (concat comps))%nat.
Proof.
  induction comps as [|c' comps IH]; intros Hin; [by apply elem_of_nil in Hin|].
  simpl. rewrite length_app. apply elem_of_cons in Hin as [-> | Hin]; [lia|].
  specialize (IH Hin). lia.
Qed.

Lemma count_le_concat grid N (comps : list (list Z)) :
  Forall (is_domain grid N) comps -> (length comps ≤ length (concat comps))%nat.
Proof.
  induction 1 as [|c comps Hc _ IH]; simpl; [done|].
  rewrite length_app. pose proof (domain_nonempty grid N c Hc). lia.
Qed.

Lemma occurrences_le s l : (occurrences s l ≤ length l)%nat.
Proof. unfold occurrences. apply length_filter. Qed.

(** X7.  Every pair that [analyzeDomains] returns has a size between 1 and
    N² and a count between 1 and N², and the pairs come by strictly
    increasing size. *)
Theorem analysis_output_bounds (grid : list Z) (N : Z) :
  0 < N ->
  exists dist,
    analyzeDomains grid N = Some (dist, grid) ∧ ascending dist ∧
    forall s n, (s, n) ∈ dist -> 1 ≤ s ≤ N * N ∧ 1 ≤ n ≤ N * N.
Proof.
  intros HN. destruct (analyzeDomains_components grid N HN) as (comps & -> & Hdom & Hnd & Hall).
  pose proof (concat_sites_length N comps Hnd Hall) as Hlen.
  pose proof (count_le_concat grid N comps Hdom) as Hcount.
  destruct (histogram_spec ((fun c => Z.of_nat (length c)) <$> comps)) as (Hasc & _ & Hpairs).
  eexists. split; [done|]. split; [done|].
  intros s n Hin. apply Hpairs in Hin as [Hpos ->].
  pose proof (occurrences_le s ((fun c => Z.of_nat (length c)) <$> comps)) as Hle.
  rewrite length_fmap in Hle.
  assert (Hin : s ∈ (fun c => Z.of_nat (length c)) <$> comps) by by apply occurrences_pos.
  apply list_elem_of_fmap in Hin as (c & -> & Hc).
  pose proof (length_le_concat comps c Hc).
  pose proof (domain_nonempty grid N c (proj1 (Forall_forall _ _) Hdom c Hc)).
  assert (0 ≤ N * N) by nia. lia.
Qed.

(** On a grid whose cells all hold the same value every cell is joined to
    cell 0. *)
Lemma uniform_connected grid N i :
  0 < N -> (forall j, site N j -> get grid j = get grid 0) ->
  site N i -> connected grid N 0 i.
Proof.
  intros HN Hu Hi.
  assert (Hrow : forall x : nat, Z.of_nat x < N -> connected grid N 0 (getIdx N (Z.of_nat x) 0)).
  { induction x as [|x IH]; intros Hx.
    - unfold getIdx. simpl. constructor.
    - eapply rtc_r; [apply IH; lia|].
      assert (Hs : site N (getIdx N (Z.of_nat x) 0)).
      { unfold site, getIdx. apply cell_in_range; lia. }
      assert (Hs' : site N (getIdx N (Z.of_nat (S x)) 0)).
      { unfold site, getIdx. apply cell_in_range; lia. }
      split; [done|]. split; [|by rewrite (Hu _ Hs), (Hu _ Hs')].
      apply (nbr_coords N _ _ HN Hs). exists (Z.of_nat (S x)), 0.
      destruct (coords_getIdx N (Z.of_nat x) 0) as [-> ->]; [lia..|].
      split; [lia|]. split; [lia|]. split; [done|]. left. split; [done|]. left.
      rewrite wrap_succ by lia. destruct (Z.eqb_spec (Z.of_nat x + 1) N); lia. }
  assert (Hcol : forall (y : nat) x, 0 ≤ x < N -> Z.of_nat y < N ->
             connected grid N (getIdx N x 0) (getIdx N x (Z.of_nat y))).
  { induction y as [|y IH]; intros x Hx Hy.
    - constructor.
    - eapply rtc_r; [apply IH; lia|].
      assert (Hs : site N (getIdx N x (Z.of_nat y))).
      { unfold site, getIdx. apply cell_in_range; lia. }
      assert (Hs' : site N (getIdx N x (Z.of_nat (S y)))).
      { unfold site, getIdx. apply cell_in_range; lia. }
      split; [done|]. split; [|by rewrite (Hu _ Hs), (Hu _ Hs')].
      apply (nbr_coords N _ _ HN Hs). exists x, (Z.of_nat (S y)).
      destruct (coords_getIdx N x (Z.of_nat y)) as [-> ->]; [lia..|].
      split; [lia|]. split; [lia|]. split; [done|]. right. split; [done|]. left.
      rewrite wrap_succ by lia. destruct (Z.eqb_spec (Z.of_nat y + 1) N); lia. }
  destruct (site_coords N i HN Hi) as [Hx Hy].
  rewrite (site_of_coords N i HN) by (unfold site in Hi; lia).
  unfold connected in *. transitivity (getIdx N (Z.rem i N) 0).
  - rewrite <- (Z2Nat.id (Z.rem i N)) by lia. apply Hrow. lia.
  - rewrite <- (Z2Nat.id (i / N)) by lia. apply Hcol; lia.
Qed.

(** X8.  A grid whose cells all hold the same value is one domain:
    [analyzeDomains] returns the single pair (N², 1). *)
Theorem uniform_grid_one_domain (grid : list Z) (N : Z) :
  0 < N -> (forall j, site N j -> get grid j = get grid 0) ->
  analyzeDomains grid N = Some ([(N * N, 1)], grid).
Proof.
  intros HN Hu. destruct (analyzeDomains_components grid N HN) as (comps & -> & Hdom & Hnd & Hall).
  pose proof (concat_sites_length N comps Hnd Hall) as Hlen.
  assert (H0 : site N 0) by (unfold site; nia).
  assert (Hfull : forall c, c ∈ comps -> 0 ∈ c).
  { intros c Hc. destruct (proj1 (Forall_forall _ _) Hdom c Hc) as (_ & r & Hr & Hiff).
    apply Hiff. apply connected_sym; [done|]. by apply uniform_connected. }
  destruct comps as [|c [|c' comps]].
  - simpl in Hlen. nia.
  - simpl in *. rewrite app_nil_r in Hlen. rewrite Hlen, Z2Nat.id by nia. done.
  - exfalso. simpl in Hnd. apply NoDup_app in Hnd as (_ & Hdis & _).
    apply (Hdis 0); [apply Hfull; by left|].
    apply elem_of_app. left. apply Hfull. right. by left.
Qed.

Lemma isolated_connected grid N r i :
  (forall a b, site N a -> nbr N a b -> get grid b ≠ get grid a) ->
  connected grid N r i -> i = r.
Proof.
  intros Hiso Hc. destruct Hc as [|r k i (Hs & Hn & He) _]; [done|].
  exfalso. by eapply Hiso.
Qed.

Lemma histogram_ones n : histogram (replicate (S n) 1) = [(1, Z.of_nat (S n))].
Proof.
  unfold histogram.
  assert (Hgen : forall m k, foldl (fun d s => tally s d) [(1, k)] (replicate m 1)
                             = [(1, k + Z.of_nat m)]).
  { induction m as [|m IH]; intros k; simpl; [by rewrite Z.add_0_r|].
    replace ((if k =? 0 then 0 else k) + 1) with (k + 1)
      by (destruct (Z.eqb_spec k 0); lia).
    rewrite IH. replace (k + 1 + Z.of_nat m) with (k + Z.of_nat (S m)) by lia. done. }
  cbn [replicate foldl tally]. rewrite Hgen.
  replace (1 + Z.of_nat n) with (Z.of_nat (S n)) by lia. done.
Qed.

(** X9.  When no cell has a neighbour of its own value (a checkerboard of
    even side, say) every cell is a domain of its own: [analyzeDomains]
    returns the single pair (1, N²). *)
Theorem isolated_cells_all_domains (grid : list Z) (N : Z) :
  0 < N -> (forall a b, site N a -> nbr N a b -> get grid b ≠ get grid a) ->
  analyzeDomains grid N = Some ([(1, N * N)], grid).
Proof.
  intros HN Hiso.
  destruct (analyzeDomains_components grid N HN) as (comps & -> & Hdom & Hnd & Hall).
  pose proof (concat_sites_length N comps Hnd Hall) as Hlen.
  assert (Hone : Forall (fun c : list Z => length c = 1%nat) comps).
  { apply Forall_forall. intros c Hc.
    destruct (proj1 (Forall_forall _ _) Hdom c Hc) as (Hndc & r & Hr & Hiff).
    assert (Hc1 : c ≡ₚ [r]).
    { apply NoDup_Permutation; [done | apply NoDup_singleton|].
      intros i. rewrite Hiff, list_elem_of_singleton. split.
      - by apply isolated_connected.
      - intros ->. constructor. }
    by rewrite Hc1. }
  assert (Hsizes : (fun c : list Z => Z.of_nat (length c)) <$> comps
                   = replicate (length comps) 1).
  { clear -Hone. induction Hone as [|c comps Hc _ IH]; [done|].
    rewrite fmap_cons, IH, Hc. done. }
  assert (Hn : length (concat comps) = length comps).
  { clear -Hone. induction Hone as [|c comps Hc _ IH]; simpl; [done|].
    rewrite length_app. lia. }
  rewrite Hsizes. destruct (length comps) as [|n] eqn:Hcn; [nia|].
  rewrite histogram_ones. do 4 f_equal. nia.
Qed.

End ComponentFacts.

(** ** More on createGrid and the sweep *)

Module SweepFacts.
Import IsingCore.

Section Sweeps.
Context {num : Type} `{Number num}.
Variable Math_exp : num -> num.
Variable rnd : Rng num.

Lemma createGrid_loop_cells k : forall i c grid,
  0 ≤ i -> (Z.to_nat i + k ≤ length grid)%nat ->
  (createGrid_loop rnd k i c grid).2 = (c + k)%nat ∧
  forall j,
    ((j < Z.to_nat i)%nat -> (createGrid_loop rnd k i c grid).1 !! j = grid !! j) ∧
    ((Z.to_nat i ≤ j < Z.to_nat i + k)%nat ->
       (createGrid_loop rnd k i c grid).1 !! j
       = Some (if n_lt half (rnd (c + (j - Z.to_nat i))%nat) then 1 else -1)).
Proof.
  induction k as [|k IH]; intros i c grid Hi Hlen; simpl.
  - split; [lia|]. intros j. split; [done | lia].
  - destruct (IH (i + 1) (S c) (put grid i (int8 (if n_lt half (rnd c) then 1 else -1))))
      as [Hc Hcells]; [lia | rewrite length_put; lia |].
    split; [lia|]. intros j. destruct (Hcells j) as [Hlow Hnew]. split.
    + intros Hj. rewrite Hlow by lia. unfold put. destruct (Z.ltb_spec i 0); [lia|].
      apply list_lookup_insert_ne. lia.
    + intros Hj. destruct (decide (j = Z.to_nat i)) as [-> | Hne].
      * rewrite Hlow by lia. unfold put. destruct (Z.ltb_spec i 0); [lia|].
        rewrite list_lookup_insert_eq by lia. rewrite Nat.sub_diag, Nat.add_0_r.
        by destruct (n_lt half (rnd c)).
      * rewrite Hnew by lia.
        replace (S c + (j - Z.to_nat (i + 1)))%nat with (c + (j - Z.to_nat i))%nat by lia.
        done.
Qed.

(** X1.  [createGrid n] makes n² draws, and cell [i] of the grid it returns
    is +1 when the i-th of them is above 0.5 and -1 otherwise. *)
Theorem createGrid_cells (n : Z) (c i : nat) :
  (i < Z.to_nat (n * n))%nat ->
  (createGrid rnd n c).2 = (c + Z.to_nat (n * n))%nat ∧
  (createGrid rnd n c).1 !! i = Some (if n_lt half (rnd (c + i)%nat) then 1 else -1).
Proof.
  intros Hi. unfold createGrid. rewrite length_replicate.
  destruct (createGrid_loop_cells (Z.to_nat (n * n)) 0 c (replicate (Z.to_nat (n * n)) 0))
    as [Hc Hcells]; [done | rewrite length_replicate; simpl; lia |].
  split; [done|]. destruct (Hcells i) as [_ Hnew]. rewrite Hnew by (simpl; lia).
  simpl. by rewrite Nat.sub_0_r.
Qed.

Lemma attempt_draws N table st :
  (S st.2 ≤ (attempt rnd N table st).2 ≤ S (S st.2))%nat.
Proof. destruct st as [grid c]. unfold attempt. repeat case_match; simpl; lia. Qed.

(** X2.  A sweep of [performMCS] makes at least N² and at most 2·N² draws. *)
Theorem performMCS_draws (grid : list Z) (N : Z) (T : num) (c : nat) :
  (c + Z.to_nat (N * N) ≤ (performMCS Math_exp rnd grid N T c).2
     ≤ c + 2 * Z.to_nat (N * N))%nat.
Proof.
  unfold performMCS. induction (Z.to_nat (N * N)) as [|k IH]; simpl; [lia|].
  pose proof (attempt_draws N (expTable Math_exp T)
                (Nat.iter k (attempt rnd N (expTable Math_exp T)) (grid, c))). lia.
Qed.

(** On a lattice whose cells are all equal, flipping any cell costs 8. *)
Lemma uniform_dE grid N idx s :
  0 < N -> lattice N grid -> (forall j, site N j -> get grid j = Some s) ->
  site N idx -> deltaE grid N idx = Some 8.
Proof.
  intros HN [Hlen Hsp] Hu Hi. destruct (site_coords N idx HN Hi) as [Hx Hy].
  assert (Hs : spin s) by (eapply Forall_get; [exact Hsp | exact (Hu idx Hi)]).
  unfold deltaE, neighborSum, leftIdx, rightIdx, topIdx, bottomIdx.
  rewrite (Hu idx Hi). simpl.
  rewrite !Hu; try (apply cell_in_range; try done; apply wrap_in_range; lia).
  simpl. f_equal. destruct Hs as [-> | ->]; lia.
Qed.

(** X3.  A lattice whose cells are all equal is left as it is by a sweep in
    which no draw falls below exp(-8/T), whatever sites the sweep picks. *)
Theorem uniform_lattice_stays (grid : list Z) (N : Z) (T : num) (c : nat) (s : Z) :
  0 < N -> lattice N grid -> (forall j, site N j -> get grid j = Some s) ->
  (forall j, n_lt (rnd j) (Math_exp (n_div (n_neg (n_ofZ 8)) T)) = false) ->
  (performMCS Math_exp rnd grid N T c).1 = grid.
Proof.
  intros HN Hlat Hu Hdraw. unfold performMCS.
  rewrite (MetropolisFacts.iter_attempt_rejects rnd N _ grid (Z.to_nat (N * N)) c); [done|].
  intros j. set (idx := n_floor (n_mul (rnd j) (n_ofZ (N * N)))).
  assert (Hd : deltaE grid N idx = Some 8 ∨ deltaE grid N idx = None).
  { destruct (decide (site N idx)) as [Hs | Hs]; [left; by eapply uniform_dE|].
    right. unfold deltaE. replace (get grid idx) with (@None Z); [done|].
    symmetry. unfold get. destruct (Z.ltb_spec idx 0); [done|].
    apply lookup_ge_None. destruct Hlat as [-> _]. unfold site in Hs. lia. }
  apply MetropolisFacts.attempt_rejects; fold idx; destruct Hd as [-> | ->]; try done.
  unfold lt_entry. simpl. apply Hdraw.
Qed.

End Sweeps.

(** In exact arithmetic a draw in [0, 1) always picks a site:
    floor(u · N²) lies in [0, N²). *)
Lemma pick_in_range (u : Q) (N : Z) :
  0 < N -> (0 <= u)%Q -> (u < 1)%Q -> site N (Qfloor (u * inject_Z (N * N))).
Proof.
  intros HN Hlo Hhi. assert (Ha : 0 < N * N) by nia.
  assert (HaQ : (inject_Z 0 < inject_Z (N * N))%Q) by (rewrite <- Zlt_Qlt; done).
  change (inject_Z 0) with 0%Q in HaQ.
  unfold site. split.
  - rewrite <- (Qfloor_Z 0). apply Qfloor_resp_le. change (inject_Z 0) with 0%Q.
    apply Qmult_le_0_compat; [done | by apply Qlt_le_weak].
  - rewrite Zlt_Qlt. eapply Qle_lt_trans; [apply Qfloor_le|].
    rewrite <- (Qmult_1_l (inject_Z (N * N))) at 2.
    by apply Qmult_lt_compat_r.
Qed.

(** X4.  In exact arithmetic and with draws in [0, 1), every attempt
    of a sweep on a lattice picks a site of the lattice and computes an
    energy delta in {-8, -4, 0, 4, 8}: no read falls outside the array. *)
Theorem sweep_stays_in_bounds (Math_exp : Q -> Q) (rnd : Rng Q)
    (grid : list Z) (N : Z) (T : Q) (c k : nat) :
  0 < N -> lattice N grid ->
  (forall j, (0 <= rnd j)%Q ∧ (rnd j < 1)%Q) ->
  let st := Nat.iter k (attempt rnd N (expTable Math_exp T)) (grid, c) in
  let idx := n_floor (n_mul (rnd st.2) (n_ofZ (N * N))) in
  site N idx ∧ exists d, deltaE st.1 N idx = Some d ∧ dE_domain d.
Proof.
  intros HN Hlat Hrnd st idx.
  assert (Hs : site N idx).
  { destruct (Hrnd st.2) as [Hlo Hhi]. by apply pick_in_range. }
  split; [done|].
  assert (Hl : lattice N st.1) by by apply MetropolisFacts.iter_attempt_lattice.
  destruct (MetropolisFacts.deltaE_defined st.1 N idx HN (proj1 Hl) Hs) as [d Hd].
  exists d. split; [done|]. by eapply MetropolisFacts.deltaE_spin; [apply Hl|].
Qed.

End SweepFacts.

(** ** The application: controls, start-up and what every state satisfies *)

Module ControlFacts.
Import IsingCore App Controls AppFacts.

Section Facts.
Context {num : Type} `{Number num}.
Variable Math_exp : num -> num.
Variable rnd : Rng num.
Implicit Types st : State (num:=num).

Lemma sizes_positive s : s ∈ SIZES -> 0 < s.
Proof. unfold SIZES. set_unfold. lia. Qed.

Lemma default_speed : SPEED_LEVELS (num:=num) !! DEFAULT_SPEED_INDEX = Some (n_ofZ 1).
Proof. reflexivity. Qed.

Lemma default_size : DEFAULT_SIZE ∈ SIZES.
Proof. unfold DEFAULT_SIZE, SIZES. set_solver. Qed.

Lemma sizeEffect_inv st :
  size st ∈ SIZES -> speedRef st ∈ SPEED_LEVELS -> 0 ≤ frameCountRef st ->
  app_inv (sizeEffect rnd st).
Proof.
  intros Hs Hf Hfc. unfold sizeEffect.
  pose proof (MetropolisFacts.createGrid_lattice rnd (size st) (drawn st)) as Hl.
  destruct (createGrid rnd (size st) (drawn st)) as [g c]. simpl in Hl.
  split; [done|]. split; [done|]. split; [done|]. split; [by left|]. by split.
Qed.

Lemma iter_performMCS_lattice n st :
  lattice (size st) (gridRef st) ->
  lattice (size st) (gridRef (Nat.iter n (call_performMCS Math_exp rnd) st)).
Proof.
  intros Hl. induction n as [|n IH]; simpl; [done|].
  destruct (iter_performMCS_spec Math_exp rnd n st) as [(Hsz & _) _].
  set (st' := Nat.iter n (call_performMCS Math_exp rnd) st) in *.
  unfold call_performMCS.
  pose proof (MetropolisFacts.performMCS_lattice Math_exp rnd (size st) (gridRef st')
                (size st') (tempRef st') (drawn st') IH) as Hl'.
  destruct (performMCS Math_exp rnd (gridRef st') (size st') (tempRef st') (drawn st')) as [g c].
  done.
Qed.

Lemma call_analyzeDomains_stats st :
  0 < size st ->
  exists st', call_analyzeDomains st = Some st' ∧ same_controls st st' ∧
    gridRef st' = gridRef st ∧ gridData st' = gridData st ∧
    analyzeDomains (gridRef st) (size st) = Some (stats st', gridRef st) ∧
    cells_counted (stats st') = size st * size st.
Proof.
  intros Hs. unfold call_analyzeDomains.
  destruct (DomainFacts.analyzeDomains_spec (gridRef st) (size st) Hs) as (dist & -> & Hd).
  simpl. eexists. split; [done|]. by repeat split.
Qed.

Lemma call_analyzeDomains_match st :
  exists st', call_analyzeDomains st = Some st' ∧ same_controls st st' ∧
    gridRef st' = gridRef st ∧ gridData st' = gridData st ∧
    analyzeDomains (gridRef st) (size st) = Some (stats st', gridRef st).
Proof.
  unfold call_analyzeDomains.
  destruct (DomainFacts.analyzeDomains_total (gridRef st) (size st)) as (dist & ->).
  simpl. eexists. split; [done|]. by repeat split.
Qed.

Lemma iter_performMCS_view n st :
  stats (Nat.iter n (call_performMCS Math_exp rnd) st) = stats st ∧
  gridData (Nat.iter n (call_performMCS Math_exp rnd) st) = gridData st.
Proof.
  induction n as [|n [IHs IHg]]; simpl; [done|]. unfold call_performMCS at 1 3.
  destruct (performMCS _ _ _ _ _ _) as [g c]. done.
Qed.

Lemma loop_inv st st' : app_inv st -> loop Math_exp rnd st = Some st' -> app_inv st'.
Proof.
  intros (Hsz & Hlat & Hview & Hstats & Hsp & Hfc). unfold loop.
  destruct (isRunning st); [|by intros [= <-]].
  cbn [accumulatorRef set_accumulator].
  set (acc := n_add (accumulatorRef st) (speedRef st)).
  destruct (0 <? n_floor acc);
    [|intros [= <-]; exact (conj Hsz (conj Hlat (conj Hview (conj Hstats (conj Hsp Hfc)))))].
  set (st2 := set_accumulator (set_accumulator st acc) (n_sub acc (n_ofZ (n_floor acc)))).
  destruct (iter_performMCS_spec Math_exp rnd (Z.to_nat (n_floor acc)) st2)
    as [(Hsz3 & _ & _ & Hsp3 & _ & Hfc3) _].
  destruct (iter_performMCS_view (Z.to_nat (n_floor acc)) st2) as [Hst3 _].
  pose proof (iter_performMCS_lattice (Z.to_nat (n_floor acc)) st2 Hlat) as Hlat3.
  set (st3 := Nat.iter (Z.to_nat (n_floor acc)) (call_performMCS Math_exp rnd) st2) in *.
  set (st5 := set_frameCount (setGridData_copy st3) (frameCountRef (setGridData_copy st3) + 1)).
  assert (H5 : app_inv st5).
  { unfold app_inv, st5. simpl. rewrite Hsz3, Hsp3, Hfc3, Hst3. simpl.
    do 5 (split; [done|]). lia. }
  destruct (_ || _); [|by intros [= <-]].
  destruct (call_analyzeDomains_stats st5) as (st6 & -> & Hc6 & Hg6 & Hd6 & _ & Hsum).
  { destruct H5 as [H5 _]. by apply sizes_positive. }
  intros [= <-]. destruct Hc6 as (Hsz6 & _ & _ & Hsp6 & _ & Hfc6).
  destruct H5 as (? & ? & ? & _ & ? & ?).
  unfold app_inv. rewrite Hsz6, Hsp6, Hfc6, Hg6, Hd6.
  do 3 (split; [done|]). split; [by right|]. by split.
Qed.

Lemma handleStep_inv st st' : app_inv st -> handleStep Math_exp rnd st = Some st' -> app_inv st'.
Proof.
  intros (Hsz & Hlat & Hview & Hstats & Hsp & Hfc). unfold handleStep.
  destruct (iter_performMCS_spec Math_exp rnd 1 st) as [(Hsz1 & _ & _ & Hsp1 & _ & Hfc1) _].
  pose proof (iter_performMCS_lattice 1 st Hlat) as Hlat1. simpl in *.
  set (st1 := call_performMCS Math_exp rnd st) in *.
  destruct (call_analyzeDomains_stats (setGridData_copy st1))
    as (st2 & -> & Hc & Hg & Hd & _ & Hsum).
  { simpl. rewrite Hsz1. by apply sizes_positive. }
  intros [= <-]. destruct Hc as (Hsz2 & _ & _ & Hsp2 & _ & Hfc2). simpl in *.
  unfold app_inv. rewrite Hsz2, Hsp2, Hfc2, Hg, Hd, Hsz1, Hsp1, Hfc1. simpl.
  rewrite Hsz1 in Hsum. do 3 (split; [done|]). split; [by right|]. by split.
Qed.

(** Every step of [app_reachable] keeps [app_inv]. *)
Lemma reachable_inv st : app_reachable Math_exp rnd st -> app_inv st.
Proof.
  induction 1 as [c | st st' _ IH Hl | st st' _ IH Hs | st _ IH | i st st' _ IH Hs
                 | t st _ IH | i st st' _ IH Hs | st _ IH].
  - unfold mounted. apply sizeEffect_inv; unfold initial;
      destruct (createGrid rnd DEFAULT_SIZE c) as [g c']; simpl.
    + unfold SIZES, DEFAULT_SIZE. set_solver.
    + unfold SPEED_LEVELS. set_solver.
    + done.
  - by eapply loop_inv.
  - unfold onStepButton in Hs. destruct (isRunning st); [by injection Hs as <-|].
    by eapply handleStep_inv.
  - destruct IH as (Hsz & _ & _ & _ & Hsp & _). unfold handleReset.
    pose proof (MetropolisFacts.createGrid_lattice rnd (size st) (drawn st)) as Hl.
    destruct (createGrid rnd (size st) (drawn st)) as [g c]. simpl in Hl.
    split; [done|]. split; [done|]. split; [done|]. split; [by left|]. by split.
  - unfold onSizeSlider in Hs. destruct (SIZES !! i) as [s|] eqn:Hi; [|done].
    injection Hs as <-. unfold setSize. destruct (s =? size st); [done|].
    destruct IH as (_ & _ & _ & _ & Hsp & Hfc).
    apply sizeEffect_inv; simpl; try done. by eapply list_elem_of_lookup_2.
  - exact IH.
  - unfold setSpeedIndex in Hs. destruct (SPEED_LEVELS !! i) as [f|] eqn:Hi; [|done].
    injection Hs as <-. destruct IH as (? & ? & ? & ? & _ & ?).
    unfold app_inv. simpl. do 4 (split; [done|]). split; [|done].
    by eapply list_elem_of_lookup_2.
  - exact IH.
Qed.

(** X10.  In every state the application can reach (from start-up by frames
    and by the controls) the side length is one of SIZES, the grid is a
    lattice of that side, the copy kept for display equals it, the
    statistics are empty or count size² cells, the speed is one of
    SPEED_LEVELS and the frame counter is not negative. *)
Theorem app_invariant st : app_reachable Math_exp rnd st -> app_inv st.
Proof. exact (reachable_inv st). Qed.

(** X11.  After the Step action the statistics held are the analysis of the
    grid held for display, which is the simulated grid. *)
Theorem step_stats_match st :
  exists st', handleStep Math_exp rnd st = Some st' ∧
    gridData st' = gridRef st' ∧
    analyzeDomains (gridData st') (size st') = Some (stats st', gridData st').
Proof.
  unfold handleStep. set (st1 := call_performMCS Math_exp rnd st).
  destruct (call_analyzeDomains_match (setGridData_copy st1))
    as (st2 & -> & (Hsz & _) & Hg & Hd & Han).
  exists st2. split; [done|]. simpl in *. rewrite Hd, Hg, Hsz. by split.
Qed.

(** X12.  A frame never analyses without sweeping and never more than once;
    it calls nothing but [performMCS] and then [analyzeDomains]; and while
    the simulation is stopped a frame changes nothing. *)
Theorem frame_calls st st' :
  loop Math_exp rnd st = Some st' ->
  (isRunning st = false -> st' = st) ∧
  exists k a : nat,
    calls st' = calls st ++ replicate k CallPerformMCS ++ replicate a CallAnalyzeDomains ∧
    (a ≤ 1)%nat ∧ (a ≤ k)%nat.
Proof.
  intros Hl. split.
  - intros Hp. unfold loop in Hl. rewrite Hp in Hl. by injection Hl as <-.
  - destruct (isRunning st) eqn:Hrun.
    + destruct (loop_running Math_exp rnd st Hrun) as (st'' & Hl' & _ & _ & _ & _ & Hsw & Hid).
      rewrite Hl in Hl'. injection Hl' as <-.
      destruct (Z.lt_ge_cases 0 (n_floor (n_add (accumulatorRef st) (speedRef st))))
        as [Hpos | Hle].
      * destruct (Hsw Hpos) as (_ & _ & Hc).
        exists (Z.to_nat (n_floor (n_add (accumulatorRef st) (speedRef st)))).
        destruct (_ || _); [exists 1%nat | exists 0%nat]; (split; [done|]); lia.
      * destruct (Hid Hle) as (_ & _ & Hc). exists 0%nat, 0%nat.
        simpl. rewrite app_nil_r. split; [done | lia].
    + unfold loop in Hl. rewrite Hrun in Hl. injection Hl as <-.
      exists 0%nat, 0%nat. simpl. rewrite app_nil_r. split; [done | lia].
Qed.

(** X13.  On a frame that analyses (it executes a sweep, and the speed is
    below 1 or the frame counter reaches a multiple of 10) the statistics
    held afterwards are the analysis of the grid held for display. *)
Theorem frame_stats_match st :
  isRunning st = true ->
  0 < n_floor (n_add (accumulatorRef st) (speedRef st)) ->
  n_lt (speedRef st) (n_ofZ 1) = true ∨ Z.rem (frameCountRef st + 1) 10 = 0 ->
  exists st', loop Math_exp rnd st = Some st' ∧
    gridData st' = gridRef st' ∧
    analyzeDomains (gridData st') (size st') = Some (stats st', gridData st').
Proof.
  intros Hrun Hpos Han. unfold loop. rewrite Hrun.
  cbn [accumulatorRef set_accumulator].
  set (acc := n_add (accumulatorRef st) (speedRef st)) in *.
  rewrite (proj2 (Z.ltb_lt _ _) Hpos).
  set (st2 := set_accumulator (set_accumulator st acc) (n_sub acc (n_ofZ (n_floor acc)))).
  destruct (iter_performMCS_spec Math_exp rnd (Z.to_nat (n_floor acc)) st2)
    as [(Hsz3 & _ & _ & Hsp3 & _ & Hfc3) _].
  set (st3 := Nat.iter (Z.to_nat (n_floor acc)) (call_performMCS Math_exp rnd) st2) in *.
  cbn [speedRef frameCountRef set_frameCount setGridData_copy].
  rewrite Hsp3, Hfc3. cbn [speedRef frameCountRef st2 set_accumulator].
  assert (Hb : n_lt (speedRef st) (n_ofZ 1) || (Z.rem (frameCountRef st + 1) 10 =? 0) = true).
  { destruct Han as [-> | Hz]; [done|]. rewrite (proj2 (Z.eqb_eq _ _) Hz). apply orb_true_r. }
  rewrite Hb.
  destruct (call_analyzeDomains_match
              (set_frameCount (setGridData_copy st3) (frameCountRef st + 1)))
    as (st6 & -> & (Hsz & _) & Hg & Hd & Hres).
  exists st6. split; [done|]. simpl in *. rewrite Hd, Hg, Hsz. by split.
Qed.

End Facts.

(** On binary64 the quotients in [CRITICAL_TEMPERATURE] and [SPEED_LEVELS]
    are the doubles that the literals of the source denote. *)
Lemma constants_binary64 :
  CRITICAL_TEMPERATURE (num:=float) = 0x1.226e978d4fdf4p+1%float ∧
  SPEED_LEVELS (num:=float)
  = [0x1.47ae147ae147bp-7; 0x1.999999999999ap-5; 0x1.999999999999ap-4; 0.25; 0.5;
     1; 2; 5; 10; 20]%float.
Proof. split; vm_compute; reflexivity. Qed.

(** *** Speeds that change between frames, in exact arithmetic *)

Section ExactSpeeds.
Variable Math_exp : Q -> Q.
Variable rnd : Rng Q.
Implicit Types st : State (num:=Q).

Lemma level_positive i f : SPEED_LEVELS (num:=Q) !! i = Some f -> (0 < f)%Q.
Proof.
  do 10 (destruct i as [|i]; [intros [= <-]; reflexivity|]). done.
Qed.

Lemma frames_exact positions : forall st,
  isRunning st = true ->
  (0 <= accumulatorRef st)%Q -> (accumulatorRef st < 1)%Q ->
  Forall (fun i => (i < 10)%nat) positions ->
  exists st',
    frames_at Math_exp rnd positions st = Some st' ∧ isRunning st' = true ∧
    (0 <= accumulatorRef st')%Q ∧ (accumulatorRef st' < 1)%Q ∧
    (inject_Z (Z.of_nat (count_calls CallPerformMCS st')) + accumulatorRef st' ==
     inject_Z (Z.of_nat (count_calls CallPerformMCS st)) + accumulatorRef st
     + speed_sum positions)%Q.
Proof.
  induction positions as [|i positions IH]; intros st Hrun Hlo Hhi Hpos.
  - exists st. simpl. do 3 (split; [done|]). split; [done|]. unfold speed_sum. simpl.
    by rewrite Qplus_0_r.
  - apply Forall_cons in Hpos as [Hi Hpos].
    destruct (lookup_lt_is_Some_2 (SPEED_LEVELS (num:=Q)) i) as [f Hf]; [simpl; lia|].
    pose proof (level_positive i f Hf) as Hfpos.
    cbn [frames_at]. unfold setSpeedIndex. rewrite Hf. cbn [mbind option_bind].
    set (st1 := mkState (size st) (isRunning st) (gridRef st) (gridData st) (stats st)
                        (tempRef st) f (accumulatorRef st) (frameCountRef st) (drawn st)
                        (calls st)).
    destruct (loop_exact Math_exp rnd st1 Hrun Hlo Hfpos)
      as (st2 & Hl & Hr2 & _ & Hu & Ha2 & Hc2).
    cbn [accumulatorRef speedRef st1] in Hu, Ha2.
    pose proof (Qfloor_le (accumulatorRef st + f)) as Hfl.
    pose proof (Qlt_floor (accumulatorRef st + f)) as Hfu.
    rewrite inject_Z_plus in Hfu. change (inject_Z 1) with 1%Q in Hfu.
    destruct (IH st2 Hr2) as (st' & Hrun' & Hr' & Hlo' & Hhi' & Hsum'); [..|done|].
    { rewrite Ha2. Lqa.lra. }
    { rewrite Ha2. Lqa.lra. }
    exists st'. rewrite Hl. cbn [mbind option_bind]. split; [done|]. split; [done|].
    split; [done|]. split; [done|].
    rewrite Hsum', Hc2, Ha2.
    change (count_calls CallPerformMCS st1) with (count_calls CallPerformMCS st).
    change (accumulatorRef st1) with (accumulatorRef st).
    change (speedRef st1) with f.
    rewrite Nat2Z.inj_add, Z2Nat.id, inject_Z_plus by done.
    cbn [speed_sum foldr]. rewrite Hf. cbn [default]. fold (speed_sum positions).
    unfold Datatypes.id. Lqa.lra.
Qed.

(** X14.  The throughput law for a speed that changes between frames: start
    with accumulator 0 and, before each frame, set the speed slider to any
    position.  In exact arithmetic the sweeps executed number the floor of
    the sum of the speed factors chosen, and the accumulator ends in [0, 1). *)
Theorem throughput_any_speeds (st : State (num:=Q)) (positions : list nat) :
  isRunning st = true -> (accumulatorRef st == 0)%Q ->
  Forall (fun i => (i < 10)%nat) positions ->
  exists st',
    frames_at Math_exp rnd positions st = Some st' ∧
    Z.of_nat (count_calls CallPerformMCS st') - Z.of_nat (count_calls CallPerformMCS st)
      = Qfloor (speed_sum positions) ∧
    (0 <= accumulatorRef st')%Q ∧ (accumulatorRef st' < 1)%Q.
Proof.
  intros Hrun Hacc Hpos.
  destruct (frames_exact positions st Hrun) as (st' & Hl & _ & Hlo & Hhi & Hsum);
    [rewrite Hacc; Lqa.lra.. | done |].
  exists st'. split; [done|]. split; [|by split].
  set (a := count_calls CallPerformMCS st') in *.
  set (b := count_calls CallPerformMCS st) in *.
  assert (Heq : (inject_Z (Z.of_nat a - Z.of_nat b) ==
                 speed_sum positions - accumulatorRef st')%Q).
  { unfold Z.sub. rewrite inject_Z_plus, inject_Z_opp. rewrite Hacc in Hsum. Lqa.lra. }
  symmetry. apply Qfloor_unique.
  - rewrite Heq. Lqa.lra.
  - rewrite inject_Z_plus, Heq. change (inject_Z 1) with 1%Q. Lqa.lra.
Qed.

End ExactSpeeds.

End ControlFacts.

(** ** What the canvas shows *)

Module CanvasFacts.
Import GridCanvas.

Lemma pixel_app calls f px py :
  pixel (calls ++ [f]) px py
  = if inside f px py then Some (f_style f) else pixel calls px py.
Proof. unfold pixel. by rewrite foldl_app. Qed.

(** A pixel shows the last call that holds it. *)
Lemma pixel_last calls px py : forall (i : nat) f,
  calls !! i = Some f -> inside f px py = true ->
  (forall (j : nat) g, (i < j)%nat -> calls !! j = Some g -> inside g px py = false) ->
  pixel calls px py = Some (f_style f).
Proof.
  induction calls as [|g calls IH] using rev_ind; intros i f Hi Hin Hlast.
  - done.
  - rewrite pixel_app. destruct (decide (i = length calls)) as [-> | Hne].
    + rewrite lookup_app_r, Nat.sub_diag in Hi by lia. injection Hi as ->. by rewrite Hin.
    + assert (Hlt : (i < length calls)%nat).
      { apply lookup_lt_Some in Hi. rewrite length_app in Hi. simpl in Hi. lia. }
      rewrite (Hlast (length calls) g Hlt).
      * apply (IH i); [by rewrite lookup_app_l in Hi | done |].
        intros j g' Hj Hg'. apply (Hlast j); [done|].
        rewrite lookup_app_l; [done|]. by apply lookup_lt_Some in Hg'.
      * by rewrite lookup_app_r, Nat.sub_diag by lia.
Qed.

(** The left edge of column [c] and the width of a cell, in exact arithmetic. *)
Lemma edge_exact size c :
  0 < size ->
  Qfloor (inject_Z c * (inject_Z displaySize / inject_Z size)) = (c * displaySize) / size.
Proof.
  intros Hs. rewrite (Qfloor_comp _ ((c * displaySize) # Z.to_pos size)).
  - unfold Qfloor. by rewrite Z2Pos.id.
  - rewrite Qmake_Qdiv, inject_Z_mult, Z2Pos.id by done. field.
    intros Hz. apply (Qeq_bool_neq (inject_Z size) 0); [|done].
    destruct size; try lia. done.
Qed.

Lemma width_exact size :
  0 < size ->
  ceil (n_div (n_ofZ displaySize) (n_ofZ size) : Q) = - ((- displaySize) / size).
Proof.
  intros Hs. unfold ceil.
  change (- Qfloor (- (inject_Z displaySize / inject_Z size)) = - (- displaySize / size)).
  f_equal.
  rewrite (Qfloor_comp _ ((- displaySize) # Z.to_pos size)).
  - unfold Qfloor. by rewrite Z2Pos.id.
  - rewrite Qmake_Qdiv, Z2Pos.id by done. rewrite inject_Z_opp. field.
    intros Hz. apply (Qeq_bool_neq (inject_Z size) 0); [|done].
    destruct size; try lia. done.
Qed.


(** [shown size p] is the last column whose left edge is at or before [p],
    and the rectangle of that column holds [p]. *)
Lemma shown_spec size p :
  0 < size -> 0 ≤ p < displaySize ->
  0 ≤ shown size p < size ∧
  (shown size p * displaySize) / size ≤ p ∧
  p < (shown size p * displaySize) / size + - ((- displaySize) / size) ∧
  forall c', shown size p < c' -> p < (c' * displaySize) / size.
Proof.
  intros Hs Hp. unfold shown, displaySize in *.
  set (q := ((p + 1) * size + (600 - 1)) / 600).
  assert (Hq1 : q * 600 ≤ (p + 1) * size + 599 < (q + 1) * 600).
  { unfold q. pose proof (Z.div_mod ((p + 1) * size + (600 - 1)) 600 ltac:(lia)).
    pose proof (Z.mod_pos_bound ((p + 1) * size + (600 - 1)) 600 ltac:(lia)). lia. }
  assert (Hq2 : 1 ≤ q ≤ size) by nia.
  split; [lia|]. split; [|split].
  - assert ((q - 1) * 600 / size < p + 1); [|lia].
    apply Z.div_lt_upper_bound; [done | nia].
  - pose proof (Z.div_mod ((q - 1) * 600) size ltac:(lia)).
    pose proof (Z.mod_pos_bound ((q - 1) * 600) size ltac:(lia)).
    pose proof (Z.div_mod (- 600) size ltac:(lia)).
    pose proof (Z.mod_pos_bound (- 600) size ltac:(lia)).
    change (Z.opp 600) with (-600). clearbody q.
    remember ((q - 1) * 600 / size) as e. remember (-600 / size) as d.
    remember (((q - 1) * 600) mod size) as m. remember ((-600) mod size) as m'.
    assert (p * size < (e - d) * size) by lia.
    apply Z.mul_lt_mono_pos_r with size; lia.
  - intros c' Hc'. assert (p + 1 ≤ c' * 600 / size); [|lia].
    apply Z.div_le_lower_bound; [done | nia].
Qed.

Lemma cell_coords size r c :
  0 < size -> 0 ≤ r -> 0 ≤ c < size ->
  Z.rem (r * size + c) size = c ∧ (r * size + c) / size = r.
Proof.
  intros Hs Hr Hc. rewrite Z.rem_mod_nonneg by nia. split.
  - by rewrite Z.add_comm, Z.mod_add, Z.mod_small by lia.
  - by rewrite Z.div_add_l, Z.div_small, Z.add_0_r by lia.
Qed.

Section Pixels.
Context {num : Type} `{Number num}.

(** What a pixel shows, for a number system that computes the edges and
    the width of the cells as exact arithmetic does. *)
Lemma pixel_of_edges (grid : list Z) (size px py : Z) :
  0 < size -> length grid = Z.to_nat (size * size) ->
  (forall c, 0 ≤ c < size ->
     n_floor (n_mul (n_ofZ c) (n_div (n_ofZ displaySize) (n_ofZ size)))
     = (c * displaySize) / size) ->
  ceil (n_div (n_ofZ displaySize) (n_ofZ size)) = - ((- displaySize) / size) ->
  0 ≤ px < displaySize -> 0 ≤ py < displaySize ->
  0 ≤ shown size px < size ∧ 0 ≤ shown size py < size ∧
  exists val,
    get grid (shown size py * size + shown size px) = Some val ∧
    pixel (render grid size) px py = Some (if val =? 1 then Red else Blue).
Proof.
  intros Hs Hlen Hedge Hw Hpx Hpy.
  destruct (shown_spec size px Hs Hpx) as (Hc & Hcl & Hcr & Hcmax).
  destruct (shown_spec size py Hs Hpy) as (Hr & Hrl & Hrr & Hrmax).
  set (c := shown size px) in *. set (r := shown size py) in *.
  split; [done|]. split; [done|].
  assert (Hi : 0 ≤ r * size + c < size * size) by nia.
  destruct (lookup_lt_is_Some_2 grid (Z.to_nat (r * size + c))) as [val Hval]; [lia|].
  exists val. split.
  { unfold get. destruct (Z.ltb_spec (r * size + c) 0); [lia | done]. }
  apply (pixel_last _ px py (S (Z.to_nat (r * size + c))) (drawCell size (r * size + c) val)).
  - unfold render. rewrite lookup_cons, list_lookup_imap, Hval. simpl.
    by rewrite Z2Nat.id by lia.
  - unfold inside, drawCell. cbn [f_x f_y f_w f_h].
    destruct (cell_coords size r c Hs ltac:(lia) Hc) as [-> ->].
    rewrite !Hedge, Hw by done.
    repeat (apply andb_true_intro; split); lia.
  - intros [|j] g Hj Hg; [lia|]. unfold render in Hg.
    rewrite lookup_cons, list_lookup_imap in Hg.
    destruct (grid !! j) as [val'|] eqn:Hv; [|done]. injection Hg as <-.
    apply lookup_lt_Some in Hv.
    assert (Hjr : 0 ≤ Z.of_nat j / size < size).
    { split; [apply Z.div_pos; lia | apply Z.div_lt_upper_bound; lia]. }
    assert (Hjc : 0 ≤ Z.rem (Z.of_nat j) size < size).
    { rewrite Z.rem_mod_nonneg by lia. apply Z.mod_pos_bound. lia. }
    assert (Hjd : Z.of_nat j = Z.of_nat j / size * size + Z.rem (Z.of_nat j) size).
    { rewrite Z.rem_mod_nonneg by lia.
      pose proof (Z.div_mod (Z.of_nat j) size ltac:(lia)). lia. }
    unfold inside, drawCell. cbn [f_x f_y f_w f_h]. rewrite !Hedge, Hw by done.
    destruct (Z.lt_ge_cases r (Z.of_nat j / size)) as [Hgt | Hle].
    + specialize (Hrmax _ Hgt).
      destruct (Z.leb_spec (Z.of_nat j / size * displaySize / size) py); [lia|].
      by rewrite !andb_false_r.
    + assert (Hcc : c < Z.rem (Z.of_nat j) size) by nia.
      specialize (Hcmax _ Hcc).
      destruct (Z.leb_spec (Z.rem (Z.of_nat j) size * displaySize / size) px); [lia|]. done.
Qed.

End Pixels.

(** On binary64 the edges and the width of the cells come out as in exact
    arithmetic, for every size the application offers. *)
Lemma same_edges_sizes size : size ∈ Controls.SIZES -> same_edges size = true.
Proof.
  unfold Controls.SIZES. intros Hin.
  repeat (apply elem_of_cons in Hin as [-> | Hin]; [vm_compute; reflexivity|]).
  by apply elem_of_nil in Hin.
Qed.

(** X16.  What the canvas shows, in exact arithmetic and for any side
    length: once [GridCanvas] has drawn a grid of size² cells, the pixel
    (px, py) of the 600 × 600 canvas has the colour of the cell in column
    [shown size px] of row [shown size py], red for +1 and blue otherwise;
    so no pixel keeps the background, and where two rectangles overlap the
    later cell wins. *)
Theorem canvas_shows_cells (grid : list Z) (size px py : Z) :
  0 < size -> length grid = Z.to_nat (size * size) ->
  0 ≤ px < displaySize -> 0 ≤ py < displaySize ->
  0 ≤ shown size px < size ∧ 0 ≤ shown size py < size ∧
  exists val,
    get grid (shown size py * size + shown size px) = Some val ∧
    pixel (render (num:=Q) grid size) px py = Some (if val =? 1 then Red else Blue).
Proof.
  intros Hs Hlen Hpx Hpy. apply pixel_of_edges; try done.
  - intros c _. by apply edge_exact.
  - by apply width_exact.
Qed.

(** The same on binary64, for the sizes the application offers. *)
Lemma pixel_binary64 (grid : list Z) (size px py : Z) :
  size ∈ Controls.SIZES -> length grid = Z.to_nat (size * size) ->
  0 ≤ px < displaySize -> 0 ≤ py < displaySize ->
  0 ≤ shown size px < size ∧ 0 ≤ shown size py < size ∧
  exists val,
    get grid (shown size py * size + shown size px) = Some val ∧
    pixel (render (num:=float) grid size) px py = Some (if val =? 1 then Red else Blue).
Proof.
  intros Hin Hlen Hpx Hpy. pose proof (ControlFacts.sizes_positive size Hin) as Hs.
  pose proof (same_edges_sizes size Hin) as He. unfold same_edges in He.
  apply andb_true_iff in He as [He Hw].
  apply pixel_of_edges; try done.
  - intros c Hc. rewrite forallb_forall in He. apply Z.eqb_eq, He.
    apply list_elem_of_In, elem_of_seqZ. lia.
  - by apply Z.eqb_eq.
Qed.

(** X17.  The application on binary64: in every state it can reach, what
    [GridCanvas] draws of [gridData] and [size] gives each pixel (px, py)
    of the canvas the colour of the cell in column [shown size px] of row
    [shown size py] of the simulated grid: red where the spin is +1, blue
    where it is -1. *)
Theorem app_canvas_binary64 (Math_exp : float -> float) (rnd : Rng float)
    (st : App.State (num:=float)) (px py : Z) :
  Controls.app_reachable Math_exp rnd st ->
  0 ≤ px < displaySize -> 0 ≤ py < displaySize ->
  exists s,
    get (App.gridRef st) (shown (App.size st) py * App.size st + shown (App.size st) px)
      = Some s ∧
    pixel (render (num:=float) (App.gridData st) (App.size st)) px py
      = Some (if s =? 1 then Red else Blue) ∧
    (s = 1 ∨ s = -1).
Proof.
  intros Hr Hpx Hpy.
  destruct (ControlFacts.reachable_inv Math_exp rnd st Hr) as (Hsz & [Hlen Hsp] & Hg & _).
  destruct (pixel_binary64 (App.gridRef st) (App.size st) px py Hsz Hlen Hpx Hpy)
    as (_ & _ & s & Hs & Hp).
  exists s. rewrite Hg. split; [done|]. split; [done|].
  change (spin s). exact (Forall_get _ _ _ _ Hsp Hs).
Qed.

End CanvasFacts.

(** ** Further concrete runs *)

Module MoreRuns.
Import IsingCore App Controls GridCanvas.

(** Draws that are all 3/4, in exact arithmetic. *)
Lemma draws_in_unit (j : nat) :
  (0 <= (fun _ : nat => 3 # 4) j)%Q ∧ ((fun _ : nat => 3 # 4) j < 1)%Q.
Proof. split; [discriminate | reflexivity]. Defined.

Lemma all_up_uniform (j : Z) : site 2 j -> get [1; 1; 1; 1] j = Some 1.
Proof.
  intros [Hlo Hhi]. assert (Hc : j = 0 ∨ j = 1 ∨ j = 2 ∨ j = 3) by lia.
  destruct Hc as [-> | [-> | [-> | ->]]]; reflexivity.
Defined.

Lemma checkerboard_isolated (a b : Z) :
  site 2 a -> nbr 2 a b -> get [1; -1; -1; 1] b ≠ get [1; -1; -1; 1] a.
Proof.
  intros [Hlo Hhi] Hn. assert (Hc : a = 0 ∨ a = 1 ∨ a = 2 ∨ a = 3) by lia.
  unfold nbr in Hn.
  destruct Hc as [-> | [-> | [-> | ->]]]; vm_compute in Hn;
    repeat (apply elem_of_cons in Hn as [-> | Hn]; [discriminate|]);
    by apply elem_of_nil in Hn.
Defined.

Lemma createGrid_cells_run :
  (createGrid (fun _ : nat => (3 # 4)%Q) 2 0).2 = 4%nat ∧
  (createGrid (fun _ : nat => (3 # 4)%Q) 2 0).1 !! 1%nat = Some 1.
Proof.
  assert (Hi : (1 < Z.to_nat (2 * 2))%nat) by (simpl; lia).
  exact (SweepFacts.createGrid_cells (fun _ : nat => (3 # 4)%Q) 2 0 1 Hi).
Defined.

Lemma uniform_lattice_stays_run :
  (performMCS (fun _ : Q => 0%Q) (fun _ : nat => (3 # 4)%Q) [1; 1; 1; 1] 2 1%Q 0).1
  = [1; 1; 1; 1].
Proof.
  apply (SweepFacts.uniform_lattice_stays (fun _ : Q => 0%Q) (fun _ : nat => (3 # 4)%Q)
           [1; 1; 1; 1] 2 1%Q 0 1);
    [lia | exact Runs.all_up_lattice | exact all_up_uniform | reflexivity].
Defined.

Lemma sweep_stays_in_bounds_run :
  let st := Nat.iter 3 (attempt (fun _ : nat => (3 # 4)%Q) 2 (expTable (fun _ : Q => 0%Q) 1%Q))
                     ([1; 1; 1; 1], 0%nat) in
  let idx := n_floor (n_mul ((fun _ : nat => (3 # 4)%Q) st.2) (n_ofZ (2 * 2))) in
  site 2 idx ∧ exists d, deltaE st.1 2 idx = Some d ∧ dE_domain d.
Proof.
  apply (SweepFacts.sweep_stays_in_bounds (fun _ : Q => 0%Q) (fun _ : nat => (3 # 4)%Q)
           [1; 1; 1; 1] 2 1%Q 0 3);
    [lia | exact Runs.all_up_lattice | exact draws_in_unit].
Defined.

Lemma domains_are_components_run :
  exists comps : list (list Z),
    analyzeDomains [1; -1; 1; 1] 2
      = Some (histogram ((fun c => Z.of_nat (length c)) <$> comps), [1; -1; 1; 1]) ∧
    Forall (is_domain [1; -1; 1; 1] 2) comps ∧
    NoDup (concat comps) ∧
    (forall i, i ∈ concat comps <-> site 2 i).
Proof. apply (ComponentFacts.domains_are_components [1; -1; 1; 1] 2). lia. Defined.

Lemma analysis_output_bounds_run :
  exists dist,
    analyzeDomains [1; -1; 1; 1] 2 = Some (dist, [1; -1; 1; 1]) ∧ ascending dist ∧
    forall s n, (s, n) ∈ dist -> 1 ≤ s ≤ 2 * 2 ∧ 1 ≤ n ≤ 2 * 2.
Proof. apply (ComponentFacts.analysis_output_bounds [1; -1; 1; 1] 2). lia. Defined.

Lemma uniform_grid_one_domain_run :
  analyzeDomains [1; 1; 1; 1] 2 = Some ([(2 * 2, 1)], [1; 1; 1; 1]).
Proof.
  apply (ComponentFacts.uniform_grid_one_domain [1; 1; 1; 1] 2); [lia|].
  intros j Hj. by rewrite (all_up_uniform j Hj).
Defined.

Lemma isolated_cells_all_domains_run :
  analyzeDomains [1; -1; -1; 1] 2 = Some ([(1, 2 * 2)], [1; -1; -1; 1]).
Proof.
  apply (ComponentFacts.isolated_cells_all_domains [1; -1; -1; 1] 2);
    [lia | exact checkerboard_isolated].
Defined.

Lemma app_invariant_run :
  app_inv (toggleRunning (mounted (num:=Q) (fun _ : nat => (3 # 4)%Q) 0)).
Proof.
  apply (ControlFacts.app_invariant (fun _ : Q => 0%Q) (fun _ : nat => (3 # 4)%Q)).
  apply app_toggle, app_mounted.
Defined.

Lemma frame_calls_run :
  loop (fun _ : Q => 0%Q) (fun _ : nat => (3 # 4)%Q) example_state
    = Some (set_accumulator example_state (1 # 4)%Q) ∧
  (isRunning example_state = false -> set_accumulator example_state (1 # 4)%Q = example_state) ∧
  exists k a : nat,
    calls (set_accumulator example_state (1 # 4)%Q)
      = calls example_state ++ replicate k CallPerformMCS ++ replicate a CallAnalyzeDomains ∧
    (a ≤ 1)%nat ∧ (a ≤ k)%nat.
Proof.
  split; [reflexivity|].
  apply (ControlFacts.frame_calls (fun _ : Q => 0%Q) (fun _ : nat => (3 # 4)%Q)). reflexivity.
Defined.

Lemma frame_stats_match_run :
  exists st', loop (fun _ : Q => 0%Q) (fun _ : nat => (3 # 4)%Q) due_state = Some st' ∧
    gridData st' = gridRef st' ∧
    analyzeDomains (gridData st') (size st') = Some (stats st', gridData st').
Proof.
  apply (ControlFacts.frame_stats_match (fun _ : Q => 0%Q) (fun _ : nat => (3 # 4)%Q) due_state);
    [reflexivity | reflexivity | left; reflexivity].
Defined.

Lemma throughput_any_speeds_run :
  exists st',
    frames_at (fun _ : Q => 0%Q) (fun _ : nat => (3 # 4)%Q) [4; 3; 6; 2]%nat example_state
      = Some st' ∧
    Z.of_nat (count_calls CallPerformMCS st') - Z.of_nat (count_calls CallPerformMCS example_state)
      = Qfloor (speed_sum [4; 3; 6; 2]%nat) ∧
    (0 <= accumulatorRef st')%Q ∧ (accumulatorRef st' < 1)%Q.
Proof.
  apply (ControlFacts.throughput_any_speeds (fun _ : Q => 0%Q) (fun _ : nat => (3 # 4)%Q)
           example_state [4; 3; 6; 2]%nat); [reflexivity | reflexivity |].
  repeat constructor.
Defined.

Lemma every_tenth_frame_run :
  exists st',
    ticks (fun _ : Q => 0%Q) (fun _ : nat => (3 # 4)%Q) 25 fast_state = Some st' ∧
    isRunning st' = true ∧ speedRef st' = speedRef fast_state ∧
    (0 <= accumulatorRef st')%Q ∧ (accumulatorRef st' < 1)%Q ∧
    frameCountRef st' = frameCountRef fast_state + Z.of_nat 25 ∧
    Z.of_nat (count_calls CallAnalyzeDomains st') =
      Z.of_nat (count_calls CallAnalyzeDomains fast_state)
      + ((frameCountRef fast_state + Z.of_nat 25) / 10 - frameCountRef fast_state / 10).
Proof.
  apply (AppFacts.every_tenth_frame_exact (fun _ : Q => 0%Q) (fun _ : nat => (3 # 4)%Q)
           25 fast_state); [reflexivity | discriminate | reflexivity | discriminate | simpl; lia].
Defined.

Lemma canvas_shows_cells_run :
  0 ≤ shown 2 450 < 2 ∧ 0 ≤ shown 2 10 < 2 ∧
  exists val,
    get [1; -1; -1; 1] (shown 2 10 * 2 + shown 2 450) = Some val ∧
    pixel (render (num:=Q) [1; -1; -1; 1] 2) 450 10 = Some (if val =? 1 then Red else Blue).
Proof.
  apply (CanvasFacts.canvas_shows_cells [1; -1; -1; 1] 2 450 10);
    [lia | reflexivity | unfold displaySize; lia | unfold displaySize; lia].
Defined.

Lemma app_canvas_binary64_run :
  let st := mounted (num:=float) stub_rnd 0 in
  exists s,
    get (gridRef st) (shown (size st) 10 * size st + shown (size st) 450) = Some s ∧
    pixel (render (num:=float) (gridData st) (size st)) 450 10
      = Some (if s =? 1 then Red else Blue) ∧
    (s = 1 ∨ s = -1).
Proof.
  apply (CanvasFacts.app_canvas_binary64 stub_exp stub_rnd (mounted stub_rnd 0) 450 10);
    [apply app_mounted | unfold displaySize; lia | unfold displaySize; lia].
Defined.

End MoreRuns.
